(** * Course notebooks: dataset acquisition, CSV tables, ratio features,
      one-hot encoding

    A shallow embedding of the procedural code of the two notebooks
    [2-week2/2-problem-data-eda.ipynb] and [3-week3/4-encoding.ipynb].

    The notebooks call into the Python standard library ([pathlib],
    [urllib.request], [tarfile]), pandas and scikit-learn.  The calls are
    embedded as operations on an explicit filesystem and an explicit
    description of the outside world (what the remote host serves, which
    paths may be written), so that the control flow of the notebooks' own
    code can be followed step by step. *)

From stdpp Require Import base strings list gmap sorting.
From Stdlib Require Import ZArith Lia Floats.

Local Open Scope string_scope.
Local Open Scope list_scope.

(* ================================================================= *)
(** * Part I: definitions *)
(* ================================================================= *)

(** ** Exceptions *)

(** The kinds of exception the notebooks' code can let escape.  The first
    five are the kinds of the acquisition routine, with the Python
    classes behind each kind listed next to it. *)
Inductive error :=
  | FilesystemError    (* PermissionError, FileExistsError, IsADirectoryError *)
  | NetworkError       (* urllib.error.URLError, HTTPError, ContentTooShortError *)
  | ExtractionError    (* tarfile.ReadError, EOFError from an archive cut short,
                          or an OSError while a member is written *)
  | FileNotFoundError  (* FileNotFoundError *)
  | ParseError         (* pandas.errors.ParserError, EmptyDataError *)
  | DecodeError        (* what the image decoder raises on bytes that are no image *)
  | KeyError           (* a column label that the frame lacks *)
  | ValueError         (* a category the encoder was not fitted on *)
  | NameError (name : string)  (* a name bound nowhere *)
  | LibraryError.      (* whatever a library call raises from inside *)

Inductive result (A : Type) :=
  | Ok (a : A)
  | Raise (e : error).
Arguments Ok {A} a.
Arguments Raise {A} e.

#[global] Instance error_eq_dec : EqDecision error.
Proof. solve_decision. Defined.

(** ** Data frames *)

(** A frame is an ordered collection of labelled columns, as a pandas
    [DataFrame] is; [A] is the type of the cells. *)
Definition DataFrame (A : Type) := list (string * list A).

Definition columns {A} (df : DataFrame A) : list string := df.*1.


(** [df[name]] *)
Fixpoint getitem {A} (df : DataFrame A) (name : string) : result (list A) :=
  match df with
  | [] => Raise KeyError
  | (k, c) :: df' => if decide (k = name) then Ok c else getitem df' name
  end.

(** [df[name] = col]: replaces the column in place when the label is
    present, appends it at the right otherwise. *)
Fixpoint setitem {A} (df : DataFrame A) (name : string) (col : list A)
  : DataFrame A :=
  match df with
  | [] => [(name, col)]
  | (k, c) :: df' =>
      if decide (k = name) then (k, col) :: df'
      else (k, c) :: setitem df' name col
  end.

(** ** Comma-separated text *)

Definition LF : Ascii.ascii := Ascii.ascii_of_nat 10.
Definition COMMA : Ascii.ascii := Ascii.ascii_of_nat 44.

(** [s.split(sep)] for a one-character separator. *)
Fixpoint split_on (sep : Ascii.ascii) (s : string) : list string :=
  match s with
  | EmptyString => [EmptyString]
  | String c s' =>
      if Ascii.eqb c sep then EmptyString :: split_on sep s'
      else match split_on sep s' with
           | f :: fs => String c f :: fs
           | [] => [String c EmptyString]
           end
  end.

Definition is_blank (line : string) : bool :=
  match line with
  | EmptyString => true
  | String _ _ => false
  end.

(** The columns of a table given by its header and its records: column
    [j] holds field [j] of every record. *)
Definition from_records (header : list string) (records : list (list string))
  : DataFrame string :=
  imap (λ j name, (name, (λ r : list string, default "" (r !! j)) <$> records))
       header.

(** Modelled from the spec: [pd.read_csv] is pandas code and not part of
    this repository; the notebook only calls it, with its defaults.  The
    format is the one of spec section 6, "comma-separated values with a
    header row": the first line carries the column names, every further
    line one record.  A file without any line and a record with more
    fields than the header has names are errors (spec section 7, a
    malformed tabular file).  Two defaults of pandas are followed where
    the spec is silent: blank lines are passed over, and a record with
    fewer fields than the header leaves its last cells empty.  Cells stay
    text: quoting and the inference of numeric types are left out. *)
Definition read_csv_text (text : string) : result (DataFrame string) :=
  match filter (λ l, is_blank l = false) (split_on LF text) with
  | [] => Raise ParseError
  | h :: recs =>
      let header := split_on COMMA h in
      let records := split_on COMMA <$> recs in
      if forallb (λ r : list string, length r <=? length header)%nat records
      then Ok (from_records header records)
      else Raise ParseError
  end.

(** The text of a CSV file with the given header and records: one line per
    row, fields joined by commas, every line ended by a line feed. *)
Definition csv_line (fields : list string) : string :=
  String.concat (String COMMA EmptyString) fields.

Fixpoint unlines (ls : list string) : string :=
  match ls with
  | [] => EmptyString
  | l :: ls' => l +:+ String LF (unlines ls')
  end.

Definition csv_text (header : list string) (records : list (list string))
  : string :=
  unlines (csv_line <$> (header :: records)).


(** ** The filesystem and the outside world *)

(** What the bytes of a regular file are:
    - text;
    - a gzip'd tar archive that [tarfile] decodes to the listed
      regular-file members (member name, member text);
    - such an archive cut short at a place where [tarfile.open] still
      accepts it: the members are what [extractall] gets to write before
      the compressed stream runs out, the last of them possibly only in
      part;
    - an image, which the decoder behind [plt.imread] turns into pixels.
    Bytes that [tarfile.open] rejects, such as an archive cut short in its
    first header, are no archive: they are [Text] as far as the routine
    goes. *)
Inductive content :=
  | Text (s : string)
  | Archive (members : list (string * string))
  | Damaged (members : list (string * string))
  | Image (pixels : list Z).

Inductive node :=
  | File (c : content)
  | Dir.

#[global] Instance content_eq_dec : EqDecision content.
Proof. solve_decision. Defined.
#[global] Instance node_eq_dec : EqDecision node.
Proof. solve_decision. Defined.

(** Paths are the strings the notebook writes them as, relative to the
    working directory, with [/] between the names. *)
Abbreviation filesystem := (gmap string node).

(** How an HTTP GET of a URL ends. *)
Inductive response :=
  | Unreachable              (* no route to the host, or a non-2xx status *)
  | Complete (body : content)  (* the whole body arrives *)
  | Truncated (body : content). (* the connection drops; [body] is what arrived *)

(** Everything outside the filesystem contents that the routine depends
    on: what the remote host serves and which paths the process may
    create or write. *)
Record world := World {
  remote : string → response;
  writable : string → bool;
}.

(** The observable steps of a run, in the order they happen. *)
Inductive event :=
  | EvMkdir (path : string)
  | EvFetch (url dest : string)
  | EvExtract (archive dir : string)
  | EvReadCsv (path : string).

#[global] Instance event_eq_dec : EqDecision event.
Proof. solve_decision. Defined.

Record state := State {
  files : filesystem;
  trace : list event;
}.

(** ** Python statements as state transformers *)

(** A computation over a state of type [S] returns a value or raises;
    either way the effects it had so far stay in the state, as they do
    when a Python exception unwinds. *)
Definition M (S A : Type) := S → result A * S.

Definition ret {S A} (a : A) : M S A := λ st, (Ok a, st).

Definition raise {S A} (e : error) : M S A := λ st, (Raise e, st).

Definition bind {S A B} (m : M S A) (k : A → M S B) : M S B :=
  λ st, match m st with
        | (Ok a, st') => k a st'
        | (Raise e, st') => (Raise e, st')
        end.

Definition get {S} : M S S := λ st, (Ok st, st).

Definition put {S} (st : S) : M S unit := λ _, (Ok tt, st).

Notation "'do' x <- m ; k" := (bind m (λ x, k))
  (at level 10, x name, m at level 100, k at level 200).
Notation "m ;; k" := (bind m (λ _, k))
  (at level 100, k at level 200, right associativity).

Definition log (e : event) : M state unit :=
  λ st, (Ok tt, State (files st) (trace st ++ [e])).

Definition lookup_path (p : string) : M state (option node) :=
  λ st, (Ok (files st !! p), st).

Definition store (p : string) (n : node) : M state unit :=
  λ st, (Ok tt, State (<[p := n]> (files st)) (trace st)).

(** [Path(p).is_file()] *)
Definition is_file (p : string) : M state bool :=
  do n <- lookup_path p;
  ret match n with
      | Some (File _) => true
      | _ => false
      end.

(** [Path(p).mkdir(parents=True, exist_ok=True)] for a path of one
    component: nothing to do when the directory is there, an error when a
    regular file has the name or when the process may not create it. *)
Definition mkdir (w : world) (p : string) : M state unit :=
  log (EvMkdir p) ;;
  do n <- lookup_path p;
  match n with
  | Some Dir => ret tt
  | Some (File _) => raise FilesystemError
  | None => if writable w p then store p Dir else raise FilesystemError
  end.

(** [urllib.request.urlretrieve(url, dest)]: the request is made first;
    the destination is then opened for writing and receives whatever
    arrives; a body that ends early raises after what arrived was
    written. *)
Definition urlretrieve (w : world) (url dest : string) : M state unit :=
  log (EvFetch url dest) ;;
  match remote w url with
  | Unreachable => raise NetworkError
  | Complete body =>
      do n <- lookup_path dest;
      match n with
      | Some Dir => raise FilesystemError
      | _ => if writable w dest then store dest (File body)
             else raise FilesystemError
      end
  | Truncated body =>
      do n <- lookup_path dest;
      match n with
      | Some Dir => raise FilesystemError
      | _ => if writable w dest then (store dest (File body) ;; raise NetworkError)
             else raise FilesystemError
      end
  end.

(** An open archive: the members [extractall] gets to read, and whether
    the compressed stream ends where it should. *)
Record TarFile := {
  tar_members : list (string * string);
  tar_complete : bool;
}.

(** [tarfile.open(p)] *)
Definition tarfile_open (p : string) : M state TarFile :=
  do n <- lookup_path p;
  match n with
  | Some (File (Archive members)) => ret {| tar_members := members; tar_complete := true |}
  | Some (File (Damaged members)) => ret {| tar_members := members; tar_complete := false |}
  | Some (File _) => raise ExtractionError
  | Some Dir => raise FilesystemError
  | None => raise FileNotFoundError
  end.

Definition join_path (dir name : string) : string := dir +:+ "/" +:+ name.

(** *** Where a member of an archive lands

    [extractall] hands [os.path.join(dir, name)] to the operating system,
    which follows the path name by name.  A place is the list of names
    that leads to it from the working directory, or from the root when
    the list starts with the empty name.  Where the working directory
    lies is not part of the filesystem map, so a path that climbs out of
    the working directory or starts from the root is a path of its own,
    even if on a given machine it leads back inside. *)
Definition SLASH : Ascii.ascii := Ascii.ascii_of_nat 47.

Abbreviation place := (list string).

Definition path_of (l : place) : string := String.concat "/" l.

(** The names of a path; empty ones (doubled or trailing slashes) do not
    count. *)
Definition components (p : string) : list string :=
  filter (λ c, c ≠ "") (split_on SLASH p).

Definition is_absolute (name : string) : bool :=
  match name with
  | String c _ => Ascii.eqb c SLASH
  | EmptyString => false
  end.

(** [os.path.join(dir, name)]: an absolute [name] leaves [dir] out and
    starts from the root. *)
Definition start_of (name : string) : place :=
  if is_absolute name then [""] else [].

Definition route (dir name : string) : list string :=
  if is_absolute name then components name
  else components dir ++ components name.

(** The working directory, the directories above it and the root are
    there whatever the map holds. *)
Definition always_there (l : place) : bool :=
  forallb (λ c, bool_decide (c = "" ∨ c = "..")) l.

Definition node_at (fs : filesystem) (l : place) : option node :=
  if always_there l then Some Dir else fs !! path_of l.

(** Where [..] leads: from the root to the root, from the working
    directory or above it one further up, from anywhere else one name
    back. *)
Definition parent (l : place) : place :=
  if always_there l
  then match l with
       | "" :: _ => l
       | _ => l ++ [".."]
       end
  else removelast l.

Definition is_nil {A} (l : list A) : bool :=
  match l with
  | [] => true
  | _ :: _ => false
  end.

(** Going down [names] from the directory [here] to the directory a
    member is to be written in, as the lookup of the path and
    [os.makedirs] do between them: [.] stays, [..] steps back, a
    directory that is there is entered, a missing one is made if the
    process may, a regular file in the way is an error.  [made] tells
    whether a directory had to be made: from then on [os.makedirs] is at
    work, which raises when the last of the names turns out to be there
    already. *)
Fixpoint reach (w : world) (made : bool) (here : place) (names : list string)
  : M filesystem place :=
  match names with
  | [] => ret here
  | c :: rest =>
      if decide (c = ".") then reach w made here rest
      else if decide (c = "..") then
        if made && is_nil rest then raise ExtractionError
        else reach w made (parent here) rest
      else
        let next := here ++ [c] in
        do fs <- get;
        match node_at fs next with
        | Some Dir =>
            if made && is_nil rest then raise ExtractionError
            else reach w made next rest
        | Some (File _) => raise ExtractionError
        | None =>
            if writable w (path_of next)
            then (put (<[path_of next := Dir]> fs) ;; reach w true next rest)
            else raise ExtractionError
        end
  end.

(** Writing one regular-file member: the directories above it are gone
    through (and made where missing), then the file is opened for writing
    and receives the member's text.  A name that ends on a directory
    cannot be opened for writing. *)
Definition extract_member (w : world) (dir name body : string)
  : M filesystem unit :=
  let names := route dir name in
  match last names with
  | None => raise ExtractionError
  | Some final =>
      do here <- reach w false (start_of name) (removelast names);
      if decide (final = "." ∨ final = "..") then raise ExtractionError
      else
        let target := here ++ [final] in
        do fs <- get;
        match node_at fs target with
        | Some Dir => raise ExtractionError
        | _ => if writable w (path_of target)
               then put (<[path_of target := File (Text body)]> fs)
               else raise ExtractionError
        end
  end.

(** Writing the members one after the other; the first one that cannot be
    written stops the extraction, the earlier ones stay. *)
Fixpoint extract_members (w : world) (dir : string)
    (members : list (string * string)) : M filesystem unit :=
  match members with
  | [] => ret tt
  | (name, body) :: rest =>
      extract_member w dir name body ;; extract_members w dir rest
  end.

(** A computation on the files alone, inside a run. *)
Definition on_files {A} (m : M filesystem A) : M state A :=
  λ st, let '(r, fs) := m (files st) in (r, State fs (trace st)).

(** [archive.extractall(path=dir)] for the archive opened from
    [archive_path]: the members are written in order; reading on in an
    archive that is cut short then raises.  One thing is left out: a
    member written over the archive itself cuts off the stream the later
    members are read from, and how far the extraction then gets depends
    on how much of the archive had been buffered; here it reads on.  The
    statements that say what an extraction achieves assume
    [well_named] members, which rules this out. *)
Definition extractall (w : world) (archive_path : string)
    (archive : TarFile) (dir : string) : M state unit :=
  log (EvExtract archive_path dir) ;;
  on_files (extract_members w dir (tar_members archive)) ;;
  if tar_complete archive then ret tt else raise ExtractionError.

(** [pd.read_csv(Path(p))] *)
Definition read_csv (p : string) : M state (DataFrame string) :=
  log (EvReadCsv p) ;;
  do n <- lookup_path p;
  match n with
  | Some (File (Text s)) =>
      match read_csv_text s with
      | Ok df => ret df
      | Raise e => raise e
      end
  | Some (File _) => raise ParseError
  | Some Dir => raise FilesystemError
  | None => raise FileNotFoundError
  end.

(** ** The acquisition routine (2-problem-data-eda.ipynb, lines 64-72) *)

Definition tarball_path : string := "data/housing.tgz".
Definition data_dir : string := "data".
Definition url : string := "https://github.com/ageron/data/raw/main/housing.tgz".
Definition housing_csv : string := "data/housing/housing.csv".

(** The body of the [if not tarball_path.is_file():] block. *)
Definition download_and_extract (w : world) : M state unit :=
  mkdir w data_dir ;;
  urlretrieve w url tarball_path ;;
  do housing_tarball <- tarfile_open tarball_path;
  extractall w tarball_path housing_tarball data_dir.

Definition load_housing_data (w : world) : M state (DataFrame string) :=
  do cached <- is_file tarball_path;
  (if negb cached then download_and_extract w else ret tt) ;;
  read_csv housing_csv.

(** One call of the routine on a filesystem, with an empty trace to start
    from: the outcome, the filesystem it leaves and the steps it took. *)
Definition call (w : world) (fs : filesystem)
  : result (DataFrame string) * filesystem * list event :=
  let '(r, st) := load_housing_data w (State fs []) in (r, files st, trace st).

Definition outcome (w : world) (fs : filesystem) : result (DataFrame string) :=
  (call w fs).1.1.
Definition files_after (w : world) (fs : filesystem) : filesystem :=
  (call w fs).1.2.
Definition steps (w : world) (fs : filesystem) : list event :=
  (call w fs).2.

Definition is_fetch (e : event) : bool :=
  match e with EvFetch _ _ => true | _ => false end.
Definition is_extract (e : event) : bool :=
  match e with EvExtract _ _ => true | _ => false end.

Definition fetches (tr : list event) : nat := length (filter (λ e, is_fetch e = true) tr).
Definition extractions (tr : list event) : nat := length (filter (λ e, is_extract e = true) tr).

(** Whether a regular file sits at the path. *)
Definition file_at (fs : filesystem) (p : string) : bool :=
  match fs !! p with
  | Some (File _) => true
  | _ => false
  end.

(** ** Attribute combinations (2-problem-data-eda.ipynb, lines 347-349) *)

(** The [/] of the cells of a numeric column ([__truediv__]); for the
    housing table the cells are float64 and [/] is IEEE division. *)
Class TrueDiv (A : Type) := truediv : A → A → A.

#[global] Instance float_truediv : TrueDiv float := PrimFloat.div.

(** [a / b] for two columns of one frame: row by row. *)
Definition col_div `{TrueDiv A} (a b : list A) : list A := zip_with truediv a b.

Definition get_col {A} (name : string) : M (DataFrame A) (list A) :=
  λ df, (getitem df name, df).

Definition set_col {A} (name : string) (col : list A) : M (DataFrame A) unit :=
  λ df, (Ok tt, setitem df name col).

(** [housing[target] = housing[num] / housing[den]] *)
Definition assign_ratio `{TrueDiv A} (target num den : string)
  : M (DataFrame A) unit :=
  do a <- get_col num;
  do b <- get_col den;
  set_col target (col_div a b).

Definition add_ratio_features `{TrueDiv A} : M (DataFrame A) unit :=
  assign_ratio "rooms_per_house" "total_rooms" "households" ;;
  assign_ratio "bedrooms_ratio" "total_bedrooms" "total_rooms" ;;
  assign_ratio "people_per_house" "population" "households".

(** The base columns the ratio features are computed from. *)
Definition base_columns : list string :=
  ["total_rooms"; "households"; "total_bedrooms"; "population"].

(** ** One-hot encoding (4-encoding.ipynb, lines 205-208 and 257-262) *)

(** Modelled from the spec: [OneHotEncoder] is scikit-learn code and not
    part of this repository; the notebook only calls it.  The glossary
    of the spec defines the encoding as "a vector with exactly one 1 at
    the position of its category and 0 elsewhere", section 9 gives the
    interface [encode_onehot(column, categories) -> matrix], and the
    category set of a fitted encoder is the distinct values of the
    column in alphabetical order (the order the notebook and the spec's
    scenario name). *)
Definition fit (column : list string) : list string :=
  merge_sort String.le (remove_dups column).

Definition one_hot (categories : list string) (x : string) : list Z :=
  (λ c, if decide (c = x) then 1%Z else 0%Z) <$> categories.

(** A value outside the category set is an error (the encoder's default
    [handle_unknown='error']). *)
Definition transform (categories column : list string)
  : result (list (list Z)) :=
  if decide (Forall (λ x, x ∈ categories) column)
  then Ok (one_hot categories <$> column)
  else Raise ValueError.

Definition fit_transform (column : list string) : result (list (list Z)) :=
  transform (fit column) column.

(** [encoder.get_feature_names_out([prefix])] *)
Definition get_feature_names_out (prefix : string) (categories : list string)
  : list string :=
  (λ c, prefix +:+ "_" +:+ c) <$> categories.

(** Decoding a row: the category of the first column that holds a 1. *)
Fixpoint position_of_one (row : list Z) : option nat :=
  match row with
  | [] => None
  | x :: row' => if decide (x = 1%Z) then Some 0 else S <$> position_of_one row'
  end.

Definition decode_row (categories : list string) (row : list Z) : option string :=
  i ← position_of_one row; categories !! i.

Definition inverse_transform (categories : list string) (rows : list (list Z))
  : option (list string) :=
  mapM (decode_row categories) rows.

Definition ones (row : list Z) : nat := length (filter (λ x, x = 1%Z) row).
Definition binary (row : list Z) : Prop := Forall (λ x, x = 0%Z ∨ x = 1%Z) row.

(** ** The code cells of 4-encoding.ipynb as statements over a namespace *)

(** What a statement does to the kernel's global namespace: the names it
    looks up, the names it binds, and whether it calls into a library
    (and so can raise from inside the call).  [line] is the line of the
    statement in the notebook file. *)
Record stmt := Stmt {
  line : nat;
  reads : list string;
  binds : list string;
  calls : bool;
}.

Record kernel := Kernel {
  namespace : gset string;
  executed : list nat;
}.

(** Looking the names up in order; the first unbound one raises. *)
Fixpoint resolve (names : list string) : M kernel unit :=
  match names with
  | [] => ret tt
  | n :: names' =>
      do k <- get;
      if decide (n ∈ namespace k) then resolve names' else raise (NameError n)
  end.

(** One statement: names are resolved, the library calls run ([lib] tells
    for each line whether they return), then the targets are bound. *)
Definition exec_stmt (lib : nat → bool) (s : stmt) : M kernel unit :=
  resolve (reads s) ;;
  if calls s && negb (lib (line s)) then raise LibraryError
  else λ k, (Ok tt, Kernel (namespace k ∪ list_to_set (binds s))
                           (executed k ++ [line s])).

(** A cell without control flow: its statements in order, up to the first
    one that raises. *)
Fixpoint run_cell (lib : nat → bool) (cell : list stmt) : M kernel unit :=
  match cell with
  | [] => ret tt
  | s :: cell' => exec_stmt lib s ;; run_cell lib cell'
  end.

(** Lines 26-77: label encoding and clustering. *)
Definition label_encoding_cell : list stmt := [
  Stmt 26 [] ["np"] true;
  Stmt 27 [] ["pd"] true;
  Stmt 28 [] ["plt"] true;
  Stmt 29 [] ["KMeans"] true;
  Stmt 30 [] ["OrdinalEncoder"] true;
  Stmt 33 [] ["n_samples"] false;
  Stmt 34 ["np"; "n_samples"] ["sweet_juicy"] true;
  Stmt 35 ["np"; "n_samples"] ["not_sweet_not_juicy"] true;
  Stmt 38 ["np"; "n_samples"] ["colors_sweet_juicy"] true;
  Stmt 39 ["np"; "n_samples"] ["colors_not_sweet_not_juicy"] true;
  Stmt 42 ["np"; "sweet_juicy"; "not_sweet_not_juicy"] ["X"] true;
  Stmt 43 ["np"; "colors_sweet_juicy"; "colors_not_sweet_not_juicy"] ["colors"] true;
  Stmt 46 ["pd"; "X"] ["df"] true;
  Stmt 47 ["colors"; "df"] [] true;
  Stmt 50 ["OrdinalEncoder"] ["le1"] true;
  Stmt 51 ["le1"; "df"] [] true;
  Stmt 53 [] ["color_mapping"] false;
  Stmt 54 ["df"; "color_mapping"] [] true;
  Stmt 57 ["KMeans"] ["kmeans_auto"] true;
  Stmt 58 ["kmeans_auto"; "df"] [] true;
  Stmt 61 ["KMeans"] ["kmeans_manual"] true;
  Stmt 62 ["kmeans_manual"; "df"] [] true;
  Stmt 65 ["plt"] ["fig"; "axes"] true;
  Stmt 67 ["axes"; "df"] [] true;
  Stmt 68 ["axes"] [] true;
  Stmt 69 ["axes"] [] true;
  Stmt 70 ["axes"] [] true;
  Stmt 72 ["axes"; "df"] [] true;
  Stmt 73 ["axes"] [] true;
  Stmt 74 ["axes"] [] true;
  Stmt 75 ["axes"] [] true;
  Stmt 77 ["plt"] [] true ].

(** Lines 179-212: the statements of the one-hot demonstration cell that
    come before the label encoder. *)
Definition one_hot_cell_head : list stmt := [
  Stmt 179 [] ["np"] true;
  Stmt 180 [] ["pd"] true;
  Stmt 181 [] ["plt"] true;
  Stmt 182 [] ["KMeans"] true;
  Stmt 183 [] ["OneHotEncoder"] true;
  Stmt 186 [] ["n_samples"] false;
  Stmt 187 ["np"; "n_samples"] ["sweet_juicy"] true;
  Stmt 188 ["np"; "n_samples"] ["not_sweet_not_juicy"] true;
  Stmt 191 ["np"; "n_samples"] ["colors_sweet_juicy"] true;
  Stmt 192 ["np"; "n_samples"] ["colors_not_sweet_not_juicy"] true;
  Stmt 195 ["np"; "sweet_juicy"; "not_sweet_not_juicy"] ["X"] true;
  Stmt 196 ["np"; "colors_sweet_juicy"; "colors_not_sweet_not_juicy"] ["colors"] true;
  Stmt 199 ["pd"; "X"] ["df"] true;
  Stmt 200 ["colors"; "df"] [] true;
  Stmt 205 ["OneHotEncoder"] ["encoder"] true;
  Stmt 207 ["encoder"; "df"] ["colors_one_hot"] true;
  Stmt 208 ["pd"; "colors_one_hot"; "encoder"] ["df_one_hot"] true;
  Stmt 211 ["pd"; "df"; "df_one_hot"] ["df_combined"] true ].

(** Line 214: [le1 = LabelEncoder()]. *)
Definition label_encoder_stmt : stmt := Stmt 214 ["LabelEncoder"] ["le1"] true.

(** Lines 215-241: the clustering comparison and its plots. *)
Definition one_hot_cell_tail : list stmt := [
  Stmt 215 ["le1"; "df"] [] true;
  Stmt 218 ["KMeans"] ["kmeans_auto"] true;
  Stmt 219 ["kmeans_auto"; "df"] [] true;
  Stmt 223 ["KMeans"] ["kmeans_one_hot"] true;
  Stmt 224 ["kmeans_one_hot"; "df_combined"] [] true;
  Stmt 228 ["plt"] ["fig"; "axes"] true;
  Stmt 230 ["axes"; "df"] [] true;
  Stmt 231 ["axes"] [] true;
  Stmt 232 ["axes"] [] true;
  Stmt 233 ["axes"] [] true;
  Stmt 236 ["axes"; "df_combined"] [] true;
  Stmt 237 ["axes"] [] true;
  Stmt 238 ["axes"] [] true;
  Stmt 239 ["axes"] [] true;
  Stmt 241 ["plt"] [] true ].

(** Lines 179-241: the one-hot demonstration cell. *)
Definition one_hot_cell : list stmt :=
  one_hot_cell_head ++ label_encoder_stmt :: one_hot_cell_tail.

(** Lines 257-262: the sparse output. *)
Definition sparse_cell : list stmt := [
  Stmt 257 [] ["X"] false;
  Stmt 259 ["OneHotEncoder"] ["encoder_sparse"] true;
  Stmt 260 ["encoder_sparse"; "X"] ["sparse_output"] true;
  Stmt 262 ["pd"; "sparse_output"; "encoder_sparse"] [] true ].

(** Lines 282-304: encoding several columns.  The statements of the loop
    and of both branches are listed in source order. *)
Definition multi_column_cell : list stmt := [
  Stmt 282 [] ["pd"] true;
  Stmt 283 [] ["OneHotEncoder"] true;
  Stmt 287 ["pd"] ["df_transformed"] true;
  Stmt 290 ["df"] ["col"] true;
  Stmt 292 ["df"; "col"] [] true;
  Stmt 294 ["OneHotEncoder"] ["encoder"] true;
  Stmt 297 ["encoder"; "df"; "col"] ["one_hot_encoded"] true;
  Stmt 298 ["pd"; "one_hot_encoded"; "encoder"; "col"] ["one_hot_df"] true;
  Stmt 301 ["pd"; "df_transformed"; "one_hot_df"] ["df_transformed"] true;
  Stmt 304 ["df"; "col"; "df_transformed"] [] true ].

Definition notebook : list (list stmt) :=
  [label_encoding_cell; one_hot_cell; sparse_cell; multi_column_cell].

(** The namespaces a kernel can be in: a fresh kernel binds none of the
    notebook's names, and every statement of the notebook that completes
    adds its targets.  Statements may complete in any order and any
    number of times, which covers cells run out of order, run again, cut
    short by an exception, and the loop of the last cell. *)
Inductive reachable : gset string → Prop :=
  | reachable_fresh : reachable ∅
  | reachable_stmt ns cell s :
      reachable ns → cell ∈ notebook → s ∈ cell →
      reachable (ns ∪ list_to_set (binds s)).



(** ** Pure readings of the filesystem, used to state what a call does *)

(** What [pd.read_csv(Path(p))] yields on a filesystem. *)
Definition read_table (fs : filesystem) (p : string) : result (DataFrame string) :=
  match fs !! p with
  | Some (File (Text s)) => read_csv_text s
  | Some (File _) => Raise ParseError
  | Some Dir => Raise FilesystemError
  | None => Raise FileNotFoundError
  end.

(** Whether [mkdir] of the path goes through. *)
Definition can_mkdir (w : world) (fs : filesystem) (p : string) : bool :=
  match fs !! p with
  | Some Dir => true
  | Some (File _) => false
  | None => writable w p
  end.

(** Whether a regular file can be written at the path. *)
Definition can_store (w : world) (fs : filesystem) (p : string) : bool :=
  writable w p && match fs !! p with Some Dir => false | _ => true end.

(** The filesystem after a [mkdir] that went through. *)
Definition with_dir (fs : filesystem) (p : string) : filesystem :=
  match fs !! p with
  | Some _ => fs
  | None => <[p := Dir]> fs
  end.

(** Whether every member of an archive can be written under [dir], once
    [dir] is in place. *)
Definition can_extract (w : world) (fs : filesystem) (dir : string)
    (members : list (string * string)) : bool :=
  match (extract_members w dir members (with_dir fs dir)).1 with
  | Ok _ => true
  | Raise _ => false
  end.

(** A member name that stays below the directory it is extracted to: a
    relative path with no name empty, [.] or [..]. *)
Definition plain_name (name : string) : bool :=
  forallb (λ c, bool_decide (c ≠ "" ∧ c ≠ "." ∧ c ≠ ".."))
          (split_on SLASH name).

(** Members whose extraction into [data] is a plain unpacking: every
    name is plain, and none is the name of the archive itself. *)
Definition well_named (members : list (string * string)) : Prop :=
  Forall (λ name, plain_name name = true ∧ name ≠ "housing.tgz") members.*1.

(** Whether [tarfile.open] accepts the bytes. *)
Definition opens (c : content) : bool :=
  match c with
  | Archive _ | Damaged _ => true
  | _ => false
  end.

(** The members [extractall] gets to write when the bytes are opened. *)
Definition members_of (c : content) : list (string * string) :=
  match c with
  | Archive ms | Damaged ms => ms
  | _ => []
  end.

(** The members of whatever the host serves whole at the routine's URL. *)
Definition served_members (w : world) (u : string) : list (string * string) :=
  match remote w u with
  | Complete body => members_of body
  | _ => []
  end.

(** What going through directories can do to a filesystem: every path
    holds what it held, or held nothing and is now a directory. *)
Definition kept_or_made (fs fs' : filesystem) : Prop :=
  ∀ p, fs' !! p = fs !! p ∨ (fs !! p = None ∧ fs' !! p = Some Dir).

(** What an extraction can do to a filesystem: every path holds what it
    held, or held nothing and is now a directory, or was no directory and
    is now a regular file with the text of a member. *)
Definition kept_or_written (fs fs' : filesystem) : Prop :=
  ∀ p, fs' !! p = fs !! p
       ∨ (fs !! p = None ∧ fs' !! p = Some Dir)
       ∨ (fs !! p ≠ Some Dir ∧ ∃ body, fs' !! p = Some (File (Text body))).


(** What [extractall] does to the files once the bytes are opened: the
    members are written, and reading on in an archive cut short
    raises. *)
Definition extracted (w : world) (dir : string) (body : content)
    (fs : filesystem) : result unit * filesystem :=
  let '(r, fs') := extract_members w dir (members_of body) fs in
  (match r with
   | Ok _ => match body with
             | Archive _ => Ok tt
             | _ => Raise ExtractionError
             end
   | Raise e => Raise e
   end, fs').

(** The path of the table file a run handed to the parser in its
    [return] statement, if it got there. *)
Definition table_path (tr : list event) : option string :=
  match last tr with
  | Some (EvReadCsv p) => Some p
  | _ => None
  end.

(** Several calls one after the other, each in its own world, each on the
    filesystem the one before left: their outcomes and steps, and the
    filesystem at the end. *)
Fixpoint calls_in_turn (ws : list world) (fs : filesystem)
  : list (result (DataFrame string) * list event) * filesystem :=
  match ws with
  | [] => ([], fs)
  | w :: ws' =>
      let '(r, fs', tr) := call w fs in
      let '(rest, fs'') := calls_in_turn ws' fs' in
      ((r, tr) :: rest, fs'')
  end.

(** Whether a character occurs in a string. *)
Fixpoint has_char (c : Ascii.ascii) (s : string) : bool :=
  match s with
  | EmptyString => false
  | String a s' => Ascii.eqb a c || has_char c s'
  end.

(** ** Sample environments *)

Definition sample_header : list string := ["longitude"; "total_rooms"; "ocean_proximity"].
Definition sample_records : list (list string) :=
  [["-122.23"; "880.0"; "NEAR BAY"]; ["-122.22"; ""; "INLAND"]].
Definition sample_csv : string := csv_text sample_header sample_records.
Definition sample_members : list (string * string) :=
  [("housing/housing.csv", sample_csv)].

(** The host serves the archive and every path may be written. *)
Definition online : world :=
  World (λ _, Complete (Archive sample_members)) (λ _, true).

(** The host cannot be reached. *)
Definition offline : world := World (λ _, Unreachable) (λ _, true).

(** The connection drops in the middle of the archive. *)
Definition flaky : world := World (λ _, Truncated (Text "PK")) (λ _, true).


(** The host serves bytes that are no archive. *)
Definition corrupt : world := World (λ _, Complete (Text "<html>")) (λ _, true).


(** The archive arrives whole but is cut short in the middle of the table
    file. *)
Definition cut_short : world :=
  World (λ _, Complete (Damaged [("housing/housing.csv",
                                  csv_text sample_header (take 1 sample_records))]))
        (λ _, true).

(** The archive holds a member that names a file outside the directory. *)
Definition hostile : world :=
  World (λ _, Complete (Archive [("../notes.txt", "gone")])) (λ _, true).

(** A file of the user's next to the data directory. *)
Definition notes : filesystem := {[ "notes.txt" := File (Text "my notes") ]}.

(** A regular file has the name of the data directory. *)
Definition data_is_a_file : filesystem := {[ data_dir := File (Text "") ]}.

(** The archive is there, the table is not. *)
Definition archive_only : filesystem :=
  {[ data_dir := Dir; tarball_path := File (Archive sample_members) ]}.

(** What the cache-miss branch is said to achieve on a filesystem: the
    directory of the cache path is there, the archive was fetched once
    into the cache path and extracted once into the directory, the cache
    file exists, and the routine ends on the path of the extracted table
    file and returns the table that file holds. *)
Definition acquired (w : world) (fs : filesystem) : Prop :=
  files_after w fs !! data_dir = Some Dir
  ∧ fetches (steps w fs) = 1
  ∧ EvFetch url tarball_path ∈ steps w fs
  ∧ extractions (steps w fs) = 1
  ∧ EvExtract tarball_path data_dir ∈ steps w fs
  ∧ file_at (files_after w fs) tarball_path = true
  ∧ table_path (steps w fs) = Some housing_csv
  ∧ ∃ df, outcome w fs = Ok df
          ∧ read_table (files_after w fs) housing_csv = Ok df.

(** ** Readings of a cell, used to state what running it does *)

(** Every name a statement looks up is available when the statement is
    reached: it is in [avail] or was bound by a statement before it. *)
Fixpoint well_scoped (avail : list string) (cell : list stmt) : bool :=
  match cell with
  | [] => true
  | s :: cell' =>
      forallb (λ n, bool_decide (n ∈ avail)) (reads s)
      && well_scoped (binds s ++ avail) cell'
  end.

(** Every library call of the cell returns. *)
Definition returns (lib : nat → bool) (cell : list stmt) : bool :=
  forallb (λ s, negb (calls s) || lib (line s)) cell.

(** The names the statements of a cell bind. *)
Definition bound (cell : list stmt) : gset string :=
  ⋃ ((λ s, list_to_set (binds s)) <$> cell).

(** No statement of the notebook binds the name. *)
Definition bound_nowhere (name : string) : bool :=
  forallb (λ cell, forallb (λ s, bool_decide (name ∉ binds s)) cell) notebook.

(* ================================================================= *)
(** * Part I, continued: the rest of the notebooks' code *)
(* ================================================================= *)

(** ** The steps of a complete download *)

Definition download_steps : list event :=
  [EvMkdir data_dir; EvFetch url tarball_path; EvExtract tarball_path data_dir;
   EvReadCsv housing_csv].

(** [fs'] keeps what [fs] had and differs from it only in [dir] and below:
    regular files stay regular files (their bytes may change), directories
    stay directories, and every path that is neither [dir] nor [dir/name]
    for some [name] holds what it held. *)
Definition grown_under (dir : string) (fs fs' : filesystem) : Prop :=
  (∀ p, file_at fs p = true → file_at fs' p = true)
  ∧ (∀ p, fs !! p = Some Dir → fs' !! p = Some Dir)
  ∧ (∀ p, p ≠ dir → (∀ name, p ≠ join_path dir name) → fs' !! p = fs !! p).

(** ** The image of California (2-problem-data-eda.ipynb, lines 244-250
       and 262) *)

(** What a cell does to the disk and what it prints. *)
Record session := Session {
  disk : state;
  stdout : list string;
}.

(** A filesystem operation inside a cell. *)
Definition on_disk {A} (m : M state A) : M session A :=
  λ s, let '(r, st) := m (disk s) in (r, Session st (stdout s)).

(** [print(a, b)]: the arguments separated by a blank, on a line. *)
Definition print (a b : string) : M session unit :=
  λ s, (Ok tt, Session (disk s) (stdout s ++ [a +:+ " " +:+ b])).

(** [urllib.request.urlretrieve(url, dir / name)] when nothing has made
    sure that [dir] is there: the request comes first, as in
    [urlretrieve]; opening the destination for writing then fails when
    [dir] is missing ([FileNotFoundError]) or is a regular file
    ([NotADirectoryError]). *)
Definition urlretrieve_into (w : world) (url dir name : string) : M state unit :=
  match remote w url with
  | Unreachable => urlretrieve w url (join_path dir name)
  | _ =>
      do d <- lookup_path dir;
      match d with
      | Some Dir => urlretrieve w url (join_path dir name)
      | Some (File _) => log (EvFetch url (join_path dir name)) ;; raise FilesystemError
      | None => log (EvFetch url (join_path dir name)) ;; raise FileNotFoundError
      end
  end.

(** What the decoder behind [plt.imread] makes of the bytes of a file:
    the pixels of an image, an exception for anything else. *)
Definition decode_image (c : content) : result (list Z) :=
  match c with
  | Image pixels => Ok pixels
  | _ => Raise DecodeError
  end.

(** [plt.imread(p)] *)
Definition imread (p : string) : M state (list Z) :=
  do n <- lookup_path p;
  match n with
  | Some (File c) =>
      match decode_image c with
      | Ok pixels => ret pixels
      | Raise e => raise e
      end
  | Some Dir => raise FilesystemError
  | None => raise FileNotFoundError
  end.

Module California.

Definition filename : string := "california.png".
Definition IMAGES_PATH : string := "assets".
Definition homl3_root : string := "https://github.com/ageron/handson-ml3/raw/main/".
Definition url : string := homl3_root +:+ "images/end_to_end_project/" +:+ filename.

(** [IMAGES_PATH / filename] *)
Definition image_path : string := join_path IMAGES_PATH filename.

(** Lines 246-250: the download, when the image is not there. *)
Definition download (w : world) : M session unit :=
  do cached <- on_disk (is_file image_path);
  if negb cached then
    print "Downloading" filename ;;
    on_disk (urlretrieve_into w url IMAGES_PATH filename)
  else ret tt.

(** Lines 246-250 and 262: the download, then the image is read.  (The
    statements in between build and draw a renamed frame and touch
    neither the disk nor the output.) *)
Definition download_and_read (w : world) : M session (list Z) :=
  download w ;;
  on_disk (imread image_path).

(** The directory of the images is there, the image is not. *)
Definition images_dir_only : filesystem := {[ IMAGES_PATH := Dir ]}.

(** The host serves an image. *)
Definition sample_pixels : list Z := [12; 200; 31; 7]%Z.
Definition gallery : world :=
  World (λ _, Complete (Image sample_pixels)) (λ _, true).

(** The connection drops in the middle of the image. *)
Definition shaky : world :=
  World (λ _, Truncated (Text "PNG")) (λ _, true).

(** A run on a filesystem, from an empty trace and an empty output. *)
Definition run {A} (m : M session A) (fs : filesystem)
  : result A * filesystem * list event * list string :=
  let '(r, s) := m (Session (State fs []) []) in
  (r, files (disk s), trace (disk s), stdout s).

End California.

(** ** One-hot encoding of several columns (4-encoding.ipynb, lines
       287-304) *)

(** A column with its dtype: numeric cells, or the strings of a column
    whose dtype is [object] or [category]. *)
Inductive series (A : Type) :=
  | Numeric (xs : list A)
  | Object (xs : list string).
Arguments Numeric {A} xs.
Arguments Object {A} xs.

(** A frame with columns of either kind, under the default row index. *)
Definition mixed_frame (A : Type) := list (string * series A).

(** [df[col]] on such a frame. *)
Fixpoint column_of {A} (df : mixed_frame A) (col : string) : result (series A) :=
  match df with
  | [] => Raise KeyError
  | (k, s) :: df' => if decide (k = col) then Ok s else column_of df' col
  end.

(** [pd.DataFrame(rows, columns=names)] for a matrix given by its rows:
    column [j] holds entry [j] of every row. *)
Definition frame_of_rows (names : list string) (rows : list (list Z)) : DataFrame Z :=
  imap (λ j name, (name, (λ r : list Z, default 0%Z (r !! j)) <$> rows)) names.

(** Lines 294-298: [OneHotEncoder(sparse=False, drop='first')] fitted on
    the column and applied to it, as a frame.  The encoder leaves out
    the first category: its entry is dropped from every row, and its name
    from the feature names. *)
Definition one_hot_df (col : string) (xs : list string) : result (DataFrame Z) :=
  match fit_transform xs with
  | Ok one_hot_encoded =>
      Ok (frame_of_rows (drop 1 (get_feature_names_out col (fit xs)))
                        (drop 1 <$> one_hot_encoded))
  | Raise e => Raise e
  end.

(** The cells of [df_transformed]: copied from [df], or a 0/1 entry of an
    encoding. *)
Definition copied {A} (xs : list A) : list (A + Z) := inl <$> xs.
Definition encoded {A} (df : DataFrame Z) : DataFrame (A + Z) :=
  (λ column : string * list Z, (column.1, inr <$> column.2)) <$> df.

(** [df_transformed = pd.concat([df_transformed, other], axis=1)] *)
Definition concat_columns {X} (other : DataFrame X) : M (DataFrame X) unit :=
  λ df_transformed, (Ok tt, df_transformed ++ other).

(** Lines 292-304: the body of the loop for one column label. *)
Definition transform_column {A} (df : mixed_frame A) (col : string)
  : M (DataFrame (A + Z)) unit :=
  match column_of df col with
  | Raise e => raise e
  | Ok (Object xs) =>
      match one_hot_df col xs with
      | Ok one_hot => concat_columns (encoded one_hot)
      | Raise e => raise e
      end
  | Ok (Numeric xs) => set_col col (copied xs)
  end.

(** Lines 290-304: [for col in df.columns: ...] *)
Fixpoint transform_columns {A} (df : mixed_frame A) (cols : list string)
  : M (DataFrame (A + Z)) unit :=
  match cols with
  | [] => ret tt
  | col :: cols' => transform_column df col ;; transform_columns df cols'
  end.

(** Lines 287-304: the cell, from the empty [df_transformed]. *)
Definition one_hot_columns {A} (df : mixed_frame A) : result unit * DataFrame (A + Z) :=
  transform_columns df df.*1 [].

(** The labels the loop gives to what it makes of one column. *)
Definition labels_of {A} (col : string) (s : series A) : list string :=
  match s with
  | Numeric _ => [col]
  | Object xs => drop 1 (get_feature_names_out col (fit xs))
  end.

(** The columns the loop makes of one column. *)
Definition columns_of {A} (col : string) (s : series A) : DataFrame (A + Z) :=
  match s with
  | Numeric xs => [(col, copied xs)]
  | Object xs =>
      (λ c, (col +:+ "_" +:+ c, (λ x, inr (if decide (c = x) then 1%Z else 0%Z)) <$> xs))
        <$> drop 1 (fit xs)
  end.

(** What the loop makes of a whole frame, column after column, and the
    labels it gives. *)
Definition transformed {A} (df : mixed_frame A) : DataFrame (A + Z) :=
  flat_map (λ cs : string * series A, columns_of cs.1 cs.2) df.

Definition transformed_labels {A} (df : mixed_frame A) : list string :=
  flat_map (λ cs : string * series A, labels_of cs.1 cs.2) df.

(** ** Label encoding (4-encoding.ipynb, lines 38-54) *)

(** Lines 38-39: the colours the two groups of fruit are drawn from. *)
Definition sweet_juicy_colors : list string := ["Blue"; "Orange"; "Purple"].
Definition not_sweet_not_juicy_colors : list string := ["Green"; "Pink"; "Red"].

(** Line 53. *)
Definition color_mapping : gmap string Z :=
  list_to_map [("Blue", 0%Z); ("Orange", 1%Z); ("Purple", 2%Z);
               ("Green", 3%Z); ("Pink", 4%Z); ("Red", 5%Z)].

(** Line 54, [df['Color'].map(color_mapping)]: every value is looked up
    in the dictionary; a value that is no key gives a missing cell
    (NaN). *)
Definition map_dict (mapping : gmap string Z) (xs : list string) : list (option Z) :=
  (λ x, mapping !! x) <$> xs.

(** The position of a value in a list of categories. *)
Fixpoint index_of (x : string) (categories : list string) : option nat :=
  match categories with
  | [] => None
  | c :: categories' =>
      if decide (c = x) then Some 0 else S <$> index_of x categories'
  end.

(** Modelled from the spec: [OrdinalEncoder] is scikit-learn code and not
    part of this repository.  The glossary of the spec has ordinal
    encoding represent "a categorical value as a single integer index",
    and the notebook says which index (line 49, "Label encode
    (alphabetic)"): the position of the value among the distinct values
    of the column in alphabetical order.  Lines 50-51. *)
Definition ordinal_fit_transform (xs : list string) : result (list nat) :=
  match mapM (λ x, index_of x (fit xs)) xs with
  | Some codes => Ok codes
  | None => Raise ValueError
  end.

(** The automatic code of one value of a column. *)
Definition auto_code (xs : list string) (x : string) : option nat :=
  index_of x (fit xs).

(** [x] comes strictly before [y] in alphabetical order. *)
Definition before (x y : string) : Prop := String.le x y ∧ x ≠ y.

(** ** The code cells of 2-problem-data-eda.ipynb as statements over a
       namespace *)

(** Line 74, [housing = load_housing_data()]: the function's name, then
    the globals its body looks up while it runs, which on a cache miss
    include [urllib] and [tarfile]. *)
Definition load_call (miss : bool) : stmt :=
  Stmt 74
       (["load_housing_data"; "Path"]
        ++ (if miss then ["Path"; "urllib"; "tarfile"] else [])
        ++ ["pd"; "Path"])
       ["housing"] true.

(** Lines 59-74. *)
Definition acquisition_cell (miss : bool) : list stmt := [
  Stmt 59 [] ["Path"] true;
  Stmt 60 [] ["pd"] true;
  Stmt 61 [] ["tarfile"] true;
  Stmt 62 [] ["urllib"] true;
  Stmt 64 [] ["load_housing_data"] false;
  load_call miss ].

(** Lines 97-124: four cells that look at the table. *)
Definition glance_cells : list stmt := [
  Stmt 97 ["housing"] [] true;
  Stmt 106 ["housing"] [] true;
  Stmt 115 ["housing"] [] true;
  Stmt 124 ["housing"] [] true ].

(** Lines 140-150. *)
Definition histogram_cell : list stmt := [
  Stmt 140 [] ["plt"] true;
  Stmt 143 ["plt"] [] true;
  Stmt 144 ["plt"] [] true;
  Stmt 145 ["plt"] [] true;
  Stmt 146 ["plt"] [] true;
  Stmt 147 ["plt"] [] true;
  Stmt 149 ["housing"] [] true;
  Stmt 150 ["plt"] [] true ].

(** Lines 180-218: three scatter plots. *)
Definition scatter_cells : list stmt := [
  Stmt 180 ["housing"] [] true;
  Stmt 181 ["plt"] [] true;
  Stmt 197 ["housing"] [] true;
  Stmt 198 ["plt"] [] true;
  Stmt 214 ["housing"] [] true;
  Stmt 218 ["plt"] [] true ].

(** Lines 241-246: the cell of the image, up to the test of the [if]. *)
Definition california_cell_head : list stmt := [
  Stmt 241 [] ["pathlib"] true;
  Stmt 244 [] ["filename"] false;
  Stmt 245 ["Path"] ["IMAGES_PATH"] true;
  Stmt 246 ["IMAGES_PATH"; "filename"] [] true ].

(** Lines 247-250: the body of the [if]. *)
Definition california_cell_download : list stmt := [
  Stmt 247 [] ["homl3_root"] false;
  Stmt 248 ["homl3_root"; "filename"] ["url"] false;
  Stmt 249 ["filename"] [] true;
  Stmt 250 ["urllib"; "url"; "IMAGES_PATH"; "filename"] [] true ].

(** Lines 252-267. *)
Definition california_cell_tail : list stmt := [
  Stmt 252 ["housing"] ["housing_renamed"] true;
  Stmt 256 ["housing_renamed"] [] true;
  Stmt 262 ["plt"; "IMAGES_PATH"; "filename"] ["california_img"] true;
  Stmt 263 [] ["axis"] false;
  Stmt 264 ["plt"; "axis"] [] true;
  Stmt 265 ["plt"; "california_img"; "axis"] [] true;
  Stmt 267 ["plt"] [] true ].

(** Lines 241-267: the statements the cell goes through, with the image
    there ([cached]) or not. *)
Definition california_cell (cached : bool) : list stmt :=
  california_cell_head
  ++ (if cached then [] else california_cell_download)
  ++ california_cell_tail.

(** Lines 290-324. *)
Definition correlation_cells : list stmt := [
  Stmt 290 ["housing"] ["corr_matrix"] true;
  Stmt 299 ["corr_matrix"] [] true;
  Stmt 308 [] ["scatter_matrix"] true;
  Stmt 310 [] ["attributes"] false;
  Stmt 312 ["scatter_matrix"; "housing"; "attributes"] [] true;
  Stmt 313 ["plt"] [] true;
  Stmt 322 ["housing"] [] true;
  Stmt 324 ["plt"] [] true ].

(** Lines 347-359. *)
Definition features_cells : list stmt := [
  Stmt 347 ["housing"] [] true;
  Stmt 348 ["housing"] [] true;
  Stmt 349 ["housing"] [] true;
  Stmt 358 ["housing"] ["corr_matrix"] true;
  Stmt 359 ["corr_matrix"] [] true ].

(** The whole notebook from top to bottom. *)
Definition eda_run_all (miss cached : bool) : list stmt :=
  acquisition_cell miss ++ glance_cells ++ histogram_cell ++ scatter_cells
  ++ california_cell cached ++ correlation_cells ++ features_cells.

(* ================================================================= *)
(** * Part II: properties *)
(* ================================================================= *)

#[local] Arguments String.append : simpl nomatch.

(** ** Splitting and joining *)

Lemma split_on_not_nil sep s : split_on sep s ≠ [].
Proof.
  destruct s as [|c s]; simpl; [done|].
  destruct (Ascii.eqb c sep); [done|].
  by destruct (split_on sep s).
Qed.


Lemma split_on_absent sep f : has_char sep f = false → split_on sep f = [f].
Proof.
  induction f as [|c f IH]; simpl; intros Hf; [done|].
  apply orb_false_iff in Hf as [Hc Hf].
  by rewrite Hc, (IH Hf).
Qed.






Lemma has_char_app c s t :
  has_char c (s +:+ t) = has_char c s || has_char c t.
Proof.
  induction s as [|a s IH]; simpl; [done|].
  by rewrite IH, orb_assoc.
Qed.



(** ** Frames built from records *)





(** ** Reading back a table that was written out *)



(** ** Single steps of the acquisition routine *)

Ltac unfold_steps :=
  unfold load_housing_data, download_and_extract, extractall, read_csv,
    tarfile_open, urlretrieve, mkdir, is_file, store, lookup_path, log,
    bind, ret, raise.

Lemma read_csv_run p st :
  read_csv p st
  = (read_table (files st) p, State (files st) (trace st ++ [EvReadCsv p])).
Proof.
  unfold_steps. unfold read_table. simpl.
  destruct (files st !! p) as [[[s|ms|ms|px]|]|]; try done.
  by destruct (read_csv_text s).
Qed.

Lemma tarball_not_data_dir : tarball_path ≠ data_dir.
Proof. done. Qed.

Lemma join_path_not_dir dir name : join_path dir name ≠ dir.
Proof.
  unfold join_path. induction dir as [|c dir IH]; simpl; [done|].
  intros [= H]. done.
Qed.

Lemma call_hit w fs :
  file_at fs tarball_path = true →
  call w fs = (read_table fs housing_csv, fs, [EvReadCsv housing_csv]).
Proof.
  unfold file_at, call. intros Hfile.
  unfold load_housing_data, is_file, lookup_path, bind, ret. simpl.
  destruct (fs !! tarball_path) as [[c|]|]; try done. simpl.
  by rewrite read_csv_run.
Qed.

Lemma join_path_inj dir : Inj (=) (=) (join_path dir).
Proof.
  intros n n' H. unfold join_path in H.
  apply (inj (String.app dir)) in H. by apply (inj (String.app "/")) in H.
Qed.

Lemma lookup_with_dir_ne fs p q : p ≠ q → with_dir fs p !! q = fs !! q.
Proof.
  intros Hne. unfold with_dir.
  destruct (fs !! p); [done|]. by rewrite lookup_insert_ne.
Qed.

Lemma lookup_with_dir fs p w :
  can_mkdir w fs p = true → with_dir fs p !! p = Some Dir.
Proof.
  unfold can_mkdir, with_dir.
  destruct (fs !! p) as [[|]|] eqn:Hp; try done.
  by rewrite lookup_insert_eq.
Qed.

Lemma with_dir_insert_ne fs p q n :
  p ≠ q → with_dir (<[q := n]> fs) p = <[q := n]> (with_dir fs p).
Proof.
  intros Hne. unfold with_dir. rewrite lookup_insert_ne by done.
  destruct (fs !! p); [done|]. by apply insert_insert_ne.
Qed.

Lemma with_dir_idemp fs p : with_dir (with_dir fs p) p = with_dir fs p.
Proof.
  unfold with_dir at 1. destruct (with_dir fs p !! p) eqn:Hp; [done|].
  unfold with_dir in Hp. destruct (fs !! p) eqn:Hq; [congruence|].
  by rewrite lookup_insert_eq in Hp.
Qed.

(** *** Paths and places *)

Lemma path_of_cons c l : l ≠ [] → path_of (c :: l) = join_path c (path_of l).
Proof. by destruct l. Qed.

Lemma path_of_split s : path_of (split_on SLASH s) = s.
Proof.
  induction s as [|c s IH]; [done|]. simpl.
  pose proof (split_on_not_nil SLASH s) as Hne.
  destruct (Ascii.eqb c SLASH) eqn:Hc.
  - apply Ascii.eqb_eq in Hc as ->.
    rewrite path_of_cons by done. by rewrite IH.
  - destruct (split_on SLASH s) as [|f fs]; [done|].
    destruct fs as [|g fs]; simpl in *; by rewrite <- IH.
Qed.

Lemma always_there_snoc l c :
  c ≠ "" → c ≠ ".." → always_there (l ++ [c]) = false.
Proof.
  intros H1 H2. unfold always_there. rewrite forallb_app. simpl.
  rewrite bool_decide_eq_false_2; [by rewrite andb_false_r|].
  by intros [?|?].
Qed.

(** The names of a plain member name are the pieces between its
    slashes, and the member is looked for below the directory. *)
Lemma plain_name_route name :
  plain_name name = true →
  start_of name = []
  ∧ route data_dir name = data_dir :: split_on SLASH name
  ∧ Forall (λ c, c ≠ "" ∧ c ≠ "." ∧ c ≠ "..") (split_on SLASH name).
Proof.
  intros Hplain.
  assert (Hall : Forall (λ c, c ≠ "" ∧ c ≠ "." ∧ c ≠ "..") (split_on SLASH name)).
  { unfold plain_name in Hplain. rewrite forallb_forall in Hplain.
    apply Forall_forall. intros c Hc. apply list_elem_of_In, Hplain in Hc.
    by apply bool_decide_eq_true in Hc. }
  assert (Hrel : is_absolute name = false).
  { destruct name as [|c s]; [done|]. simpl in *.
    destruct (Ascii.eqb c SLASH); [|done].
    apply Forall_cons in Hall as [[? _] _]. done. }
  unfold start_of, route. rewrite Hrel. split_and!; [done| |done].
  change (components data_dir) with [data_dir]. simpl. f_equal.
  unfold components. induction Hall as [|c cs [Hc _] _ IH]; [done|].
  by rewrite filter_cons_True, IH.
Qed.

(** *** Going through the directories above a member *)

Lemma kept_or_made_refl fs : kept_or_made fs fs.
Proof. intros p. by left. Qed.

Lemma kept_or_made_trans fs1 fs2 fs3 :
  kept_or_made fs1 fs2 → kept_or_made fs2 fs3 → kept_or_made fs1 fs3.
Proof.
  intros H12 H23 p. destruct (H12 p) as [E1|[E1 E1']], (H23 p) as [E2|[E2 E2']].
  - left. congruence.
  - right. split; congruence.
  - right. split; congruence.
  - congruence.
Qed.

Lemma kept_or_made_insert fs k :
  fs !! k = None → kept_or_made fs (<[k := Dir]> fs).
Proof.
  intros Hk p. destruct (decide (k = p)) as [<-|Hne].
  - right. by rewrite lookup_insert_eq.
  - left. by rewrite lookup_insert_ne.
Qed.

Lemma node_at_None fs l : node_at fs l = None → fs !! path_of l = None.
Proof. unfold node_at. by destruct (always_there l). Qed.

Lemma reach_kept w made here names fs :
  kept_or_made fs (reach w made here names fs).2
  ∧ ∀ e, (reach w made here names fs).1 = Raise e → e = ExtractionError.
Proof.
  revert made here fs. induction names as [|c rest IH]; intros made here fs.
  { split; [apply kept_or_made_refl|done]. }
  cbn [reach]. destruct (decide (c = ".")); [apply IH|].
  destruct (decide (c = "..")).
  { destruct (made && is_nil rest); [|apply IH].
    split; [apply kept_or_made_refl|by intros ? [= <-]]. }
  unfold bind, get, put, raise. cbn zeta.
  destruct (node_at fs (here ++ [c])) as [[f|]|] eqn:Hnode.
  - split; [apply kept_or_made_refl|by intros ? [= <-]].
  - destruct (made && is_nil rest); [|apply IH].
    split; [apply kept_or_made_refl|by intros ? [= <-]].
  - destruct (writable w (path_of (here ++ [c]))).
    + destruct (IH true (here ++ [c]) (<[path_of (here ++ [c]) := Dir]> fs))
        as [Hkept Herr].
      split; [|done].
      eapply kept_or_made_trans; [|exact Hkept].
      by apply kept_or_made_insert, node_at_None.
    + split; [apply kept_or_made_refl|by intros ? [= <-]].
Qed.

(** With plain names the way leads down only: the directory reached is
    named by the names gone through, and nothing changes but the paths
    on that way. *)
Lemma reach_plain w made here names fs :
  Forall (λ c, c ≠ "" ∧ c ≠ "." ∧ c ≠ "..") names →
  (∀ l, (reach w made here names fs).1 = Ok l → l = here ++ names)
  ∧ (∀ p, (∀ k, 0 < k ≤ length names → p ≠ path_of (here ++ take k names)) →
          (reach w made here names fs).2 !! p = fs !! p).
Proof.
  intros Hplain. revert made here fs.
  induction Hplain as [|c rest (Hc1 & Hc2 & Hc3) _ IH]; intros made here fs.
  { split; [|done]. intros l [= <-]. by rewrite app_nil_r. }
  cbn [reach]. rewrite !decide_False by done.
  unfold bind, get, put, raise. cbn zeta.
  assert (Hstep : ∀ made' fs',
            (∀ p, p ≠ path_of (here ++ [c]) → fs' !! p = fs !! p) →
            (∀ l, (reach w made' (here ++ [c]) rest fs').1 = Ok l
                  → l = here ++ c :: rest)
            ∧ (∀ p, (∀ k, 0 < k ≤ length (c :: rest)
                          → p ≠ path_of (here ++ take k (c :: rest))) →
                    (reach w made' (here ++ [c]) rest fs').2 !! p = fs !! p)).
  { intros made' fs' Hsame. destruct (IH made' (here ++ [c]) fs') as [Hl Hp].
    split.
    - intros l Hok. rewrite (Hl l Hok). by rewrite <- app_assoc.
    - intros p Hout. rewrite Hp.
      + apply Hsame. apply (Hout 1). simpl. lia.
      + intros k Hk. rewrite <- app_assoc. apply (Hout (S k)). simpl. lia. }
  destruct (node_at fs (here ++ [c])) as [[f|]|] eqn:Hnode.
  - by split.
  - destruct (made && is_nil rest); [by split|]. by apply Hstep.
  - destruct (writable w (path_of (here ++ [c]))); [|by split].
    apply Hstep. intros p Hp. by rewrite lookup_insert_ne.
Qed.


(** *** Writing one member *)

Lemma extract_member_run w dir name body fs :
  extract_member w dir name body fs
  = match last (route dir name) with
    | None => (Raise ExtractionError, fs)
    | Some final =>
        match reach w false (start_of name) (removelast (route dir name)) fs with
        | (Raise e, fs1) => (Raise e, fs1)
        | (Ok l, fs1) =>
            if decide (final = "." ∨ final = "..") then (Raise ExtractionError, fs1)
            else match node_at fs1 (l ++ [final]) with
                 | Some Dir => (Raise ExtractionError, fs1)
                 | _ =>
                     if writable w (path_of (l ++ [final]))
                     then (Ok tt, <[path_of (l ++ [final]) := File (Text body)]> fs1)
                     else (Raise ExtractionError, fs1)
                 end
        end
    end.
Proof.
  unfold extract_member. cbn zeta.
  destruct (last (route dir name)) as [final|]; [|done].
  unfold bind at 1.
  destruct (reach w false (start_of name) (removelast (route dir name)) fs)
    as [[l|e] fs1]; [|done].
  destruct (decide (final = "." ∨ final = "..")); [done|].
  unfold bind, get, put, raise. cbn zeta.
  destruct (node_at fs1 (l ++ [final])) as [[f|]|];
    by destruct (writable w (path_of (l ++ [final]))).
Qed.

(** An extraction of one member either raises, having at most made
    directories, or goes through the directories above the member and
    writes the member's text where no directory is. *)
Lemma extract_member_cases w dir name body fs :
  ((extract_member w dir name body fs).1 = Raise ExtractionError
   ∧ kept_or_made fs (extract_member w dir name body fs).2)
  ∨ (∃ l final fs1,
       last (route dir name) = Some final
       ∧ reach w false (start_of name) (removelast (route dir name)) fs = (Ok l, fs1)
       ∧ fs1 !! path_of (l ++ [final]) ≠ Some Dir
       ∧ extract_member w dir name body fs
         = (Ok tt, <[path_of (l ++ [final]) := File (Text body)]> fs1)).
Proof.
  rewrite extract_member_run.
  destruct (last (route dir name)) as [final|] eqn:Hlast.
  2:{ left. split; [done|apply kept_or_made_refl]. }
  pose proof (reach_kept w false (start_of name) (removelast (route dir name)) fs)
    as [Hkept Herr].
  destruct (reach w false (start_of name) (removelast (route dir name)) fs)
    as [[l|e] fs1] eqn:Hreach; simpl in *.
  2:{ left. by rewrite (Herr e eq_refl). }
  destruct (decide (final = "." ∨ final = "..")) as [Hdots|Hplain].
  { left. by split. }
  unfold node_at.
  destruct (always_there (l ++ [final])); [left; by split|].
  destruct (fs1 !! path_of (l ++ [final])) as [[f|]|] eqn:Htarget.
  - destruct (writable w (path_of (l ++ [final]))); [|left; by split].
    right. exists l, final, fs1. split_and!; try done. by rewrite Htarget.
  - left. by split.
  - destruct (writable w (path_of (l ++ [final]))); [|left; by split].
    right. exists l, final, fs1. split_and!; try done. by rewrite Htarget.
Qed.

Lemma kept_or_written_refl fs : kept_or_written fs fs.
Proof. intros p. by left. Qed.

Lemma kept_or_written_trans fs1 fs2 fs3 :
  kept_or_written fs1 fs2 → kept_or_written fs2 fs3 → kept_or_written fs1 fs3.
Proof.
  intros H12 H23 p.
  destruct (H12 p) as [E1|[[E1 E1']|[E1 [b1 E1']]]],
           (H23 p) as [E2|[[E2 E2']|[E2 [b2 E2']]]].
  - left. congruence.
  - right. left. split; congruence.
  - right. right. split; [congruence|]. by exists b2.
  - right. left. split; congruence.
  - congruence.
  - congruence.
  - right. right. split; [done|]. exists b1. congruence.
  - congruence.
  - right. right. split; [done|]. by exists b2.
Qed.

Lemma kept_or_made_written fs fs' : kept_or_made fs fs' → kept_or_written fs fs'.
Proof. intros H p. destruct (H p) as [?|?]; [by left|by right; left]. Qed.

Lemma kept_or_written_store fs k body :
  fs !! k ≠ Some Dir → kept_or_written fs (<[k := File (Text body)]> fs).
Proof.
  intros Hk p. destruct (decide (k = p)) as [<-|Hne].
  - right. right. rewrite lookup_insert_eq. split; [done|]. by exists body.
  - left. by rewrite lookup_insert_ne.
Qed.

Lemma extract_member_over w dir name body fs :
  kept_or_written fs (extract_member w dir name body fs).2
  ∧ ((extract_member w dir name body fs).1 = Ok tt
     ∨ (extract_member w dir name body fs).1 = Raise ExtractionError).
Proof.
  destruct (extract_member_cases w dir name body fs)
    as [[Hr Hk]|(l & final & fs1 & _ & Hreach & Hnodir & ->)].
  - split; [by apply kept_or_made_written|by right].
  - split; [|by left]. simpl.
    pose proof (reach_kept w false (start_of name) (removelast (route dir name)) fs)
      as [Hkept _]. rewrite Hreach in Hkept. simpl in Hkept.
    eapply kept_or_written_trans; [by apply kept_or_made_written|].
    by apply kept_or_written_store.
Qed.

Lemma removelast_last {A} (l : list A) x :
  last l = Some x → l = removelast l ++ [x].
Proof.
  induction l as [|a l IH]; [done|]. destruct l as [|b l].
  - by intros [= ->].
  - intros Hl. change (removelast (a :: b :: l)) with (a :: removelast (b :: l)).
    simpl. f_equal. by apply IH.
Qed.

(** A member with a plain name lands at its name below [data], and its
    extraction changes no other regular file and nothing outside
    [data]. *)
Lemma extract_member_plain w name body fs :
  plain_name name = true →
  let r := extract_member w data_dir name body fs in
  (∀ p, p ≠ data_dir → (∀ x, p ≠ join_path data_dir x) → r.2 !! p = fs !! p)
  ∧ (∀ p, p ≠ join_path data_dir name → file_at fs p = true → r.2 !! p = fs !! p)
  ∧ (r.1 = Ok tt → r.2 !! join_path data_dir name = Some (File (Text body))).
Proof.
  intros Hplain r.
  destruct (plain_name_route name Hplain) as (Hstart & Hroute & Hall).
  pose proof (split_on_not_nil SLASH name) as Hne.
  assert (Hway : Forall (λ c, c ≠ "" ∧ c ≠ "." ∧ c ≠ "..")
                        (removelast (route data_dir name))).
  { rewrite Hroute. destruct (split_on SLASH name) as [|c cs] eqn:Hsplit; [done|].
    change (removelast (data_dir :: c :: cs)) with (data_dir :: removelast (c :: cs)).
    constructor; [done|]. apply Forall_forall. intros x Hx.
    rewrite Forall_forall in Hall. apply Hall.
    assert (Hlast : ∃ y, last (c :: cs) = Some y).
    { destruct (last (c :: cs)) eqn:E; [by eexists|].
      by apply last_None in E. }
    destruct Hlast as [y Hy]. rewrite (removelast_last _ _ Hy).
    apply elem_of_app. by left. }
  (* every path on the way is [data] or below it *)
  assert (Hunder : ∀ k, 0 < k ≤ length (route data_dir name) →
            path_of (take k (route data_dir name)) = data_dir
            ∨ ∃ x, path_of (take k (route data_dir name)) = join_path data_dir x).
  { intros k Hk. rewrite Hroute. destruct k as [|k]; [lia|]. simpl.
    destruct (take k (split_on SLASH name)) as [|c cs] eqn:Htake; [by left|].
    right. exists (path_of (c :: cs)). by rewrite path_of_cons. }
  (* the target is the member's name below [data] *)
  assert (Htarget : path_of (route data_dir name) = join_path data_dir name).
  { rewrite Hroute, path_of_cons by done. by rewrite path_of_split. }
  pose proof (reach_plain w false [] (removelast (route data_dir name)) fs Hway)
    as [Hplace Hrest].
  assert (Hreach_out : ∀ p,
            p ≠ data_dir → (∀ x, p ≠ join_path data_dir x) →
            (reach w false [] (removelast (route data_dir name)) fs).2 !! p
            = fs !! p).
  { intros p Hp1 Hp2. apply Hrest. intros k Hk. simpl.
    assert (Hlen : (length (removelast (route data_dir name))
                    ≤ length (route data_dir name))%nat).
    { rewrite Hroute. destruct (split_on SLASH name) as [|c cs] eqn:Hsplit; [done|].
      change (removelast (data_dir :: c :: cs)) with (data_dir :: removelast (c :: cs)).
      assert (Hlast : ∃ y, last (c :: cs) = Some y).
      { destruct (last (c :: cs)) eqn:E; [by eexists|]. by apply last_None in E. }
      destruct Hlast as [y Hy].
      rewrite (removelast_last (c :: cs) y Hy) at 2.
      simpl. rewrite length_app. simpl. lia. }
    assert (Htk : take k (removelast (route data_dir name))
                  = take k (route data_dir name)).
    { assert (Hlast : ∃ y, last (route data_dir name) = Some y).
      { destruct (last (route data_dir name)) eqn:E; [by eexists|].
        apply last_None in E. by rewrite Hroute in E. }
      destruct Hlast as [y Hy].
      rewrite (removelast_last (route data_dir name) y Hy) at 2.
      rewrite take_app_le by lia. done. }
    rewrite Htk. destruct (Hunder k) as [E|[x E]]; [lia|..]; rewrite E; auto. }
  subst r.
  destruct (extract_member_cases w data_dir name body fs)
    as [[Hr Hk]|(l & final & fs1 & Hlast & Hreach & Hnodir & Hrun)].
  - split_and!.
    + intros p Hp1 Hp2. specialize (Hreach_out p Hp1 Hp2).
      rewrite extract_member_run in Hr |- *. rewrite Hstart in Hr |- *.
      destruct (last (route data_dir name)) as [final|] eqn:Hlast; [|done].
      destruct (reach w false [] (removelast (route data_dir name)) fs)
        as [[l|e] fs1]; simpl in *; [|done].
      destruct (decide (final = "." ∨ final = "..")); [done|].
      destruct (node_at fs1 (l ++ [final])) as [[f|]|];
        try done; destruct (writable w (path_of (l ++ [final])));
        simpl in *; done.
    + intros p _ Hfile. destruct (Hk p) as [E|[E _]]; [done|].
      unfold file_at in Hfile. by rewrite E in Hfile.
    + by rewrite Hr.
  - rewrite Hstart in Hreach. rewrite Hrun. simpl.
    assert (Hl : l ++ [final] = route data_dir name).
    { rewrite (Hplace l) by (by rewrite Hreach). simpl.
      symmetry. by apply removelast_last. }
    rewrite Hl, Htarget. split_and!.
    + intros p Hp1 Hp2. rewrite lookup_insert_ne by (intros <-; by eapply Hp2).
      specialize (Hreach_out p Hp1 Hp2). by rewrite Hreach in Hreach_out.
    + intros p Hp Hfile. rewrite lookup_insert_ne by done.
      pose proof (reach_kept w false [] (removelast (route data_dir name)) fs)
        as [Hkept _]. rewrite Hreach in Hkept.
      destruct (Hkept p) as [E|[E _]]; [done|].
      unfold file_at in Hfile. by rewrite E in Hfile.
    + intros _. by rewrite lookup_insert_eq.
Qed.


(** *** Writing all members *)

Lemma extract_members_cons w dir name body ms fs :
  extract_members w dir ((name, body) :: ms) fs
  = match extract_member w dir name body fs with
    | (Ok _, fs') => extract_members w dir ms fs'
    | (Raise e, fs') => (Raise e, fs')
    end.
Proof. done. Qed.

Lemma extract_members_over w dir ms fs :
  kept_or_written fs (extract_members w dir ms fs).2
  ∧ ((extract_members w dir ms fs).1 = Ok tt
     ∨ (extract_members w dir ms fs).1 = Raise ExtractionError).
Proof.
  revert fs. induction ms as [|[name body] ms IH]; intros fs.
  { split; [apply kept_or_written_refl|by left]. }
  rewrite extract_members_cons.
  destruct (extract_member_over w dir name body fs) as [Hover Hres].
  destruct (extract_member w dir name body fs) as [[[]|e] fs1]; simpl in *.
  - destruct (IH fs1) as [Hover' Hres']. split; [|done].
    by eapply kept_or_written_trans.
  - split; [done|]. destruct Hres as [?|[= ->]]; [done|by right].
Qed.

Lemma kept_or_written_file fs fs' p :
  kept_or_written fs fs' → file_at fs p = true → file_at fs' p = true.
Proof.
  intros Hover. unfold file_at. destruct (Hover p) as [->|[[-> _]|[_ [b ->]]]]; done.
Qed.

Lemma kept_or_written_dir fs fs' p :
  kept_or_written fs fs' → fs !! p = Some Dir → fs' !! p = Some Dir.
Proof.
  intros Hover Hp. destruct (Hover p) as [->|[[E _]|[E _]]]; [done|congruence..].
Qed.

(** An archive of members with plain names is unpacked below [data]:
    nothing outside changes, and when the extraction goes through and no
    name comes twice every member is on disk under its name. *)
Lemma extract_members_plain w ms fs :
  Forall (λ name, plain_name name = true) ms.*1 →
  let r := extract_members w data_dir ms fs in
  (∀ p, p ≠ data_dir → (∀ x, p ≠ join_path data_dir x) → r.2 !! p = fs !! p)
  ∧ (∀ p, (∀ name, name ∈ ms.*1 → p ≠ join_path data_dir name) →
          file_at fs p = true → r.2 !! p = fs !! p)
  ∧ (r.1 = Ok tt → NoDup ms.*1 →
     ∀ name body, (name, body) ∈ ms →
                  r.2 !! join_path data_dir name = Some (File (Text body))).
Proof.
  revert fs. induction ms as [|[name body] ms IH]; intros fs Hplain.
  { simpl. split_and!; [done..|]. intros _ _ ?? H. by apply elem_of_nil in H. }
  apply Forall_cons in Hplain as [Hname Hplain]. cbn zeta.
  rewrite extract_members_cons.
  destruct (extract_member_plain w name body fs Hname) as (Hout & Hfiles & Hthere).
  pose proof (extract_member_over w data_dir name body fs) as [Hover _].
  destruct (extract_member w data_dir name body fs) as [[[]|e] fs1]; simpl in *.
  2:{ split_and!; [done| |done]. intros p Hp Hfile. apply Hfiles; [|done].
      apply Hp. by left. }
  destruct (IH fs1 Hplain) as (Hout' & Hfiles' & Hthere').
  split_and!.
  - intros p Hp1 Hp2. rewrite Hout', Hout; done.
  - intros p Hp Hfile. rewrite Hfiles'.
    + apply Hfiles; [|done]. apply Hp. by left.
    + intros n Hn. apply Hp. by right.
    + by eapply kept_or_written_file.
  - intros Hok Hnd n b Hin. apply NoDup_cons in Hnd as [Hfresh Hnd].
    apply elem_of_cons in Hin as [[= -> ->]|Hin]; [|by apply Hthere'].
    rewrite Hfiles'.
    + by apply Hthere.
    + intros n Hn Heq. apply join_path_inj in Heq as ->. done.
    + unfold file_at. by rewrite Hthere.
Qed.


Lemma can_extract_true w fs dir ms :
  can_extract w fs dir ms = true
  ↔ (extract_members w dir ms (with_dir fs dir)).1 = Ok tt.
Proof.
  unfold can_extract.
  destruct (extract_members w dir ms (with_dir fs dir)).1 as [[]|e]; by split.
Qed.


(** *** The cache-miss block *)

Lemma mkdir_run w p fs tr :
  mkdir w p (State fs tr)
  = if can_mkdir w fs p
    then (Ok tt, State (with_dir fs p) (tr ++ [EvMkdir p]))
    else (Raise FilesystemError, State fs (tr ++ [EvMkdir p])).
Proof.
  unfold mkdir, can_mkdir, with_dir, bind, log, lookup_path, store, ret, raise.
  simpl. destruct (fs !! p) as [[|]|]; try done.
  by destruct (writable w p).
Qed.

Lemma urlretrieve_run w u dest fs tr :
  urlretrieve w u dest (State fs tr)
  = match remote w u with
    | Unreachable => (Raise NetworkError, State fs (tr ++ [EvFetch u dest]))
    | Complete body =>
        if can_store w fs dest
        then (Ok tt, State (<[dest := File body]> fs) (tr ++ [EvFetch u dest]))
        else (Raise FilesystemError, State fs (tr ++ [EvFetch u dest]))
    | Truncated body =>
        if can_store w fs dest
        then (Raise NetworkError, State (<[dest := File body]> fs) (tr ++ [EvFetch u dest]))
        else (Raise FilesystemError, State fs (tr ++ [EvFetch u dest]))
    end.
Proof.
  unfold urlretrieve, can_store, bind, log, lookup_path, store, raise. simpl.
  destruct (remote w u) as [|body|body]; simpl; [done|..];
    destruct (fs !! dest) as [[|]|]; rewrite ?andb_true_r, ?andb_false_r;
    by destruct (writable w dest).
Qed.

Lemma can_store_with_dir w fs dir p :
  p ≠ dir → can_store w (with_dir fs dir) p = can_store w fs p.
Proof. intros Hne. unfold can_store. by rewrite lookup_with_dir_ne. Qed.

Lemma can_store_not_dir w fs p : can_store w fs p = true → fs !! p ≠ Some Dir.
Proof.
  unfold can_store. intros [_ H]%andb_true_iff Hp. by rewrite Hp in H.
Qed.

Lemma extracted_result w dir body fs :
  (extracted w dir body fs).1 = Ok tt
  ∨ (extracted w dir body fs).1 = Raise ExtractionError.
Proof.
  unfold extracted.
  destruct (extract_members_over w dir (members_of body) fs) as [_ Hres].
  destruct (extract_members w dir (members_of body) fs) as [[[]|e] fs']; simpl in *.
  - destruct body; auto.
  - destruct Hres as [?|[= ->]]; [done|by right].
Qed.

Lemma extracted_over w dir body fs :
  kept_or_written fs (extracted w dir body fs).2.
Proof.
  unfold extracted.
  destruct (extract_members_over w dir (members_of body) fs) as [Hover _].
  by destruct (extract_members w dir (members_of body) fs) as [[[]|e] fs'].
Qed.

Lemma extracted_archive w dir ms fs :
  extracted w dir (Archive ms) fs = extract_members w dir ms fs.
Proof.
  unfold extracted. simpl.
  by destruct (extract_members w dir ms fs) as [[[]|e] fs'].
Qed.

(** The cache-miss block, step by step. *)
Lemma download_and_extract_run w fs tr :
  download_and_extract w (State fs tr) =
  let tr1 := (tr ++ [EvMkdir data_dir])%list in
  let tr2 := (tr1 ++ [EvFetch url tarball_path])%list in
  let fs1 := with_dir fs data_dir in
  if can_mkdir w fs data_dir then
    match remote w url with
    | Unreachable => (Raise NetworkError, State fs1 tr2)
    | Complete body =>
        if can_store w fs tarball_path then
          if opens body then
            ((extracted w data_dir body (<[tarball_path := File body]> fs1)).1,
             State (extracted w data_dir body (<[tarball_path := File body]> fs1)).2
                   (tr2 ++ [EvExtract tarball_path data_dir]))
          else
            (Raise ExtractionError, State (<[tarball_path := File body]> fs1) tr2)
        else (Raise FilesystemError, State fs1 tr2)
    | Truncated body =>
        if can_store w fs tarball_path
        then (Raise NetworkError, State (<[tarball_path := File body]> fs1) tr2)
        else (Raise FilesystemError, State fs1 tr2)
    end
  else (Raise FilesystemError, State fs tr1).
Proof.
  assert (Hopen : ∀ (fs2 : filesystem) tr2 body,
    fs2 !! tarball_path = Some (File body) →
    (do housing_tarball <- tarfile_open tarball_path;
     extractall w tarball_path housing_tarball data_dir) (State fs2 tr2)
    = if opens body then
        ((extracted w data_dir body fs2).1,
         State (extracted w data_dir body fs2).2
               (tr2 ++ [EvExtract tarball_path data_dir]))
      else (Raise ExtractionError, State fs2 tr2)).
  { intros fs2 tr2 body Hbody.
    unfold tarfile_open, extractall, on_files, lookup_path, log, bind, ret, raise,
      extracted.
    simpl. rewrite Hbody. destruct body as [s|ms|ms|px]; simpl; try done;
      by destruct (extract_members w data_dir ms fs2) as [[[]|e] fs']. }
  unfold download_and_extract. unfold bind at 1. rewrite mkdir_run.
  destruct (can_mkdir w fs data_dir) eqn:Hmkdir; [|done].
  unfold bind at 1. rewrite urlretrieve_run. simpl.
  rewrite can_store_with_dir by done.
  destruct (remote w url) as [|body|body]; [done|..];
    destruct (can_store w fs tarball_path); try done.
  apply Hopen. by rewrite lookup_insert_eq.
Qed.

Lemma load_housing_data_miss w fs tr :
  file_at fs tarball_path = false →
  load_housing_data w (State fs tr)
  = match download_and_extract w (State fs tr) with
    | (Ok _, st) => read_csv housing_csv st
    | (Raise e, st) => (Raise e, st)
    end.
Proof.
  intros Hmiss. unfold load_housing_data, is_file, lookup_path.
  unfold bind at 1 2 3. unfold ret at 1. simpl.
  unfold file_at in Hmiss.
  destruct (fs !! tarball_path) as [[|]|]; try done.
Qed.

Lemma call_miss w fs :
  file_at fs tarball_path = false →
  call w fs
  = match download_and_extract w (State fs []) with
    | (Ok _, st) =>
        (read_table (files st) housing_csv, files st,
         trace st ++ [EvReadCsv housing_csv])
    | (Raise e, st) => (Raise e, files st, trace st)
    end.
Proof.
  intros Hmiss. unfold call. rewrite load_housing_data_miss by done.
  destruct (download_and_extract w _) as [[[]|e] st]; [|done].
  by rewrite read_csv_run.
Qed.

Lemma table_path_snoc tr p : table_path (tr ++ [EvReadCsv p]) = Some p.
Proof. unfold table_path. by rewrite last_snoc. Qed.


(** The archive stays at the cache path while it is unpacked. *)
Lemma extracted_keeps_archive w body fs :
  file_at (extracted w data_dir body (<[tarball_path := File body]> fs)).2
          tarball_path = true.
Proof.
  eapply kept_or_written_file; [apply extracted_over|].
  unfold file_at. by rewrite lookup_insert_eq.
Qed.

(** Well-named members are unpacked below [data] and next to the
    archive: the archive stays what it is, and when the extraction goes
    through and no name comes twice every member is on disk under its
    name. *)
Lemma well_named_unpacked w body ms fs :
  well_named ms →
  let r := extract_members w data_dir ms (<[tarball_path := File body]> fs) in
  r.2 !! tarball_path = Some (File body)
  ∧ (r.1 = Ok tt → NoDup ms.*1 →
     ∀ name text, (name, text) ∈ ms →
                  r.2 !! join_path data_dir name = Some (File (Text text))).
Proof.
  intros Hnamed r.
  assert (Hplain : Forall (λ name, plain_name name = true) ms.*1).
  { eapply Forall_impl; [exact Hnamed|]. by intros name [? _]. }
  destruct (extract_members_plain w ms (<[tarball_path := File body]> fs) Hplain)
    as (_ & Hfiles & Hmem).
  split; [|done]. subst r. rewrite Hfiles.
  - by rewrite lookup_insert_eq.
  - intros name Hin. unfold well_named in Hnamed. rewrite Forall_forall in Hnamed.
    destruct (Hnamed name Hin) as [_ Hne].
    change tarball_path with (join_path data_dir "housing.tgz").
    intros Heq. by apply join_path_inj in Heq.
  - unfold file_at. by rewrite lookup_insert_eq.
Qed.

(** A call on a cache miss for which every step goes through. *)
Lemma call_completes w fs ms :
  file_at fs tarball_path = false →
  can_mkdir w fs data_dir = true →
  remote w url = Complete (Archive ms) →
  can_store w fs tarball_path = true →
  can_extract w (<[tarball_path := File (Archive ms)]> fs) data_dir ms = true →
  ∃ fs', extract_members w data_dir ms
           (<[tarball_path := File (Archive ms)]> (with_dir fs data_dir))
         = (Ok tt, fs')
         ∧ call w fs = (read_table fs' housing_csv, fs',
                        [EvMkdir data_dir; EvFetch url tarball_path;
                         EvExtract tarball_path data_dir; EvReadCsv housing_csv])
         ∧ file_at fs' tarball_path = true
         ∧ fs' !! data_dir = Some Dir.
Proof.
  intros Hmiss Hmkdir Hserve Hstore Hextract.
  rewrite call_miss, download_and_extract_run by done. simpl.
  rewrite Hmkdir, Hserve, Hstore. simpl.
  pose proof (extracted_keeps_archive w (Archive ms) (with_dir fs data_dir)) as Hkeep.
  pose proof (extracted_over w data_dir (Archive ms)
                (<[tarball_path := File (Archive ms)]> (with_dir fs data_dir))) as Hover.
  rewrite extracted_archive in *.
  apply can_extract_true in Hextract.
  rewrite with_dir_insert_ne in Hextract by done.
  destruct (extract_members w data_dir ms _) as [r fs'] eqn:Hrun.
  simpl in *. subst r. exists fs'. split_and!; try done.
  eapply kept_or_written_dir; [exact Hover|].
  rewrite lookup_insert_ne by done. by eapply lookup_with_dir.
Qed.

(** A call that returns leaves the cache file behind and ends on the
    table file. *)
Lemma call_returns w fs df :
  outcome w fs = Ok df →
  file_at (files_after w fs) tarball_path = true
  ∧ read_table (files_after w fs) housing_csv = Ok df
  ∧ table_path (steps w fs) = Some housing_csv.
Proof.
  unfold outcome, files_after, steps.
  destruct (file_at fs tarball_path) eqn:Hcache.
  - rewrite call_hit by done. simpl. by intros ->.
  - rewrite call_miss, download_and_extract_run by done. simpl.
    destruct (can_mkdir w fs data_dir); [|done].
    destruct (remote w url) as [|body|body]; try done;
      destruct (can_store w fs tarball_path) eqn:Hstore; try done.
    destruct (opens body); [|done].
    pose proof (extracted_keeps_archive w body (with_dir fs data_dir)) as Hkeep.
    destruct (extracted w data_dir body _) as [[[]|e] fs']; [|done].
    simpl in *. by intros ->.
Qed.

(** ** The claims about the acquisition routine *)

(** C1, as it holds of the routine.  On every filesystem where the cache
    file exists, a call makes no network fetch and no extraction and
    leaves the filesystem as it is; its only step is the read of the
    table file, at the path a fresh run that returns ends on; it returns
    the table that file holds when the file is there and parses, and
    raises what the read raises otherwise.  Hence a second call after a
    call that returned fetches nothing, changes nothing and returns the
    same table. *)
Theorem cache_hit_no_network :
  (∀ w fs,
     file_at fs tarball_path = true →
     fetches (steps w fs) = 0
     ∧ extractions (steps w fs) = 0
     ∧ files_after w fs = fs
     ∧ steps w fs = [EvReadCsv housing_csv]
     ∧ (∀ df, read_table fs housing_csv = Ok df → outcome w fs = Ok df)
     ∧ (∀ e, read_table fs housing_csv = Raise e → outcome w fs = Raise e)
     ∧ ∀ w' fs' df',
         file_at fs' tarball_path = false → outcome w' fs' = Ok df' →
         table_path (steps w fs) = table_path (steps w' fs'))
  ∧ (∀ w1 w2 fs df,
       outcome w1 fs = Ok df →
       fetches (steps w2 (files_after w1 fs)) = 0
       ∧ extractions (steps w2 (files_after w1 fs)) = 0
       ∧ outcome w2 (files_after w1 fs) = Ok df
       ∧ files_after w2 (files_after w1 fs) = files_after w1 fs).
Proof.
  split.
  - intros w fs Hhit. unfold outcome, files_after, steps.
    rewrite call_hit by done. simpl. split_and!; try done.
    intros w' fs' df' _ Hok. destruct (call_returns _ _ _ Hok) as (_ & _ & Hp).
    unfold steps in Hp. by rewrite Hp.
  - intros w1 w2 fs df Hok.
    destruct (call_returns _ _ _ Hok) as (Hhit & Hread & _).
    generalize dependent (files_after w1 fs). intros fs1 Hhit Hread.
    unfold outcome, files_after, steps.
    rewrite (call_hit w2) by done. simpl. by rewrite Hread.
Qed.

Lemma cache_hit_no_network_sample :
  fetches (steps offline (files_after online ∅)) = 0
  ∧ outcome offline (files_after online ∅) = outcome online ∅
  ∧ table_path (steps offline (files_after online ∅)) = table_path (steps online ∅).
Proof.
  assert (Hfirst : outcome online ∅ = Ok (from_records sample_header sample_records))
    by (vm_compute; reflexivity).
  destruct (proj2 cache_hit_no_network online offline ∅ _ Hfirst) as (Hf & _ & Ho & _).
  destruct (proj1 cache_hit_no_network offline (files_after online ∅))
    as (_ & _ & _ & _ & _ & _ & Hpath); [vm_compute; reflexivity|].
  split_and!; [exact Hf| |].
  - rewrite Ho. symmetry. exact Hfirst.
  - eapply (Hpath online ∅); [reflexivity|exact Hfirst].
Defined.

(** C1 does not hold of every filesystem with the cache file: with the
    archive in place and the table file gone, a call returns nothing at
    all, where a fresh run returns the table. *)
Lemma cache_hit_returns_nothing :
  file_at archive_only tarball_path = true
  ∧ outcome online archive_only = Raise FileNotFoundError
  ∧ (¬ ∃ df, outcome online archive_only = Ok df)
  ∧ outcome online ∅ = Ok (from_records sample_header sample_records).
Proof.
  assert (Hout : outcome online archive_only = Raise FileNotFoundError)
    by (vm_compute; reflexivity).
  split_and!; try (vm_compute; reflexivity).
  intros [df Hdf]. rewrite Hout in Hdf. discriminate.
Qed.

(** C2, for the runs in which every step goes through.  On every
    filesystem without the cache file on which the directory can be made,
    the host serves a whole archive of regular files with distinct plain
    names (none of them the archive's own), the table file
    [housing/housing.csv] with a well-formed table among them, the cache
    path can be written and, with the archive in place, every member can
    be written, a call makes the directory of the cache path if it is
    missing, fetches the archive once into the cache path, extracts it
    once into the directory, leaves the archive at the cache path, ends
    on the path of the extracted table file and returns the table parsed
    from it. *)
Theorem cache_miss_downloads_once w fs ms text df :
  file_at fs tarball_path = false →
  can_mkdir w fs data_dir = true →
  remote w url = Complete (Archive ms) →
  can_store w fs tarball_path = true →
  well_named ms →
  NoDup ms.*1 →
  can_extract w (<[tarball_path := File (Archive ms)]> fs) data_dir ms = true →
  ("housing/housing.csv", text) ∈ ms →
  read_csv_text text = Ok df →
  acquired w fs
  ∧ outcome w fs = Ok df
  ∧ steps w fs = [EvMkdir data_dir; EvFetch url tarball_path;
                  EvExtract tarball_path data_dir; EvReadCsv housing_csv]
  ∧ files_after w fs !! tarball_path = Some (File (Archive ms))
  ∧ (∀ name body,
       (name, body) ∈ ms →
       files_after w fs !! join_path data_dir name = Some (File (Text body))).
Proof.
  intros Hmiss Hmkdir Hserve Hstore Hnamed Hnodup Hextract Htable Hparse.
  destruct (call_completes w fs ms) as (fs' & Hrun & Hcall & Hcache & Hdir); try done.
  destruct (well_named_unpacked w (Archive ms) ms (with_dir fs data_dir) Hnamed)
    as (Hkept & Hmem).
  rewrite Hrun in Hkept, Hmem. simpl in Hkept, Hmem.
  specialize (Hmem eq_refl Hnodup).
  assert (Hread : read_table fs' housing_csv = Ok df).
  { unfold read_table.
    change housing_csv with (join_path data_dir "housing/housing.csv").
    by rewrite (Hmem _ _ Htable). }
  unfold acquired, outcome, files_after, steps. rewrite Hcall. simpl.
  split_and!; try done.
  - rewrite !elem_of_cons. tauto.
  - rewrite !elem_of_cons. tauto.
  - by exists df.
Qed.

Lemma cache_miss_downloads_once_sample :
  acquired online ∅
  ∧ outcome online ∅ = Ok (from_records sample_header sample_records)
  ∧ files_after online ∅ !! join_path data_dir "housing/housing.csv"
    = Some (File (Text sample_csv)).
Proof.
  destruct (cache_miss_downloads_once online ∅ sample_members sample_csv
              (from_records sample_header sample_records))
    as (Hacq & Hout & _ & _ & Hmem).
  - reflexivity.
  - reflexivity.
  - reflexivity.
  - reflexivity.
  - by repeat constructor.
  - repeat constructor. by intros ?%elem_of_nil.
  - vm_compute. reflexivity.
  - by left.
  - vm_compute. reflexivity.
  - split_and!; [exact Hacq|exact Hout|]. apply Hmem. by left.
Defined.

(** C2 does not hold of every filesystem without the cache file: when
    the host cannot be reached the fetch is attempted, nothing is
    extracted, no cache file is left and the call raises. *)
Lemma cache_miss_offline_not_acquired :
  file_at ∅ tarball_path = false
  ∧ extractions (steps offline ∅) = 0
  ∧ file_at (files_after offline ∅) tarball_path = false
  ∧ outcome offline ∅ = Raise NetworkError
  ∧ ¬ acquired offline ∅.
Proof.
  assert (Hext : extractions (steps offline ∅) = 0) by (vm_compute; reflexivity).
  split_and!; try (vm_compute; reflexivity).
  intros (_ & _ & _ & Hone & _). rewrite Hext in Hone. discriminate.
Qed.

(** Nor does it with a working host when a regular file has the name of
    the data directory: [mkdir] raises and nothing is fetched. *)
Lemma cache_miss_data_is_a_file :
  file_at data_is_a_file tarball_path = false
  ∧ outcome online data_is_a_file = Raise FilesystemError
  ∧ steps online data_is_a_file = [EvMkdir data_dir].
Proof. split_and!; vm_compute; reflexivity. Qed.

Lemma read_table_other fs p q n : p ≠ q → read_table (<[p := n]> fs) q = read_table fs q.
Proof. intros Hne. unfold read_table. by rewrite lookup_insert_ne. Qed.

Lemma calls_in_turn_hit ws fs :
  file_at fs tarball_path = true →
  calls_in_turn ws fs
  = ((λ _, (read_table fs housing_csv, [EvReadCsv housing_csv])) <$> ws, fs).
Proof.
  intros Hhit. induction ws as [|w ws IH]; simpl; [done|].
  by rewrite call_hit, IH.
Qed.

(** C3. Whatever regular file sits at the cache path, every later call,
    in whatever world, goes straight to reading the table: it fetches
    nothing, extracts nothing, changes nothing, and what it does and
    returns does not depend on what the file holds. *)
Theorem cache_valid_by_existence (ws : list world) (fs : filesystem) (c : content) :
  fs !! tarball_path = Some (File c) →
  calls_in_turn ws fs
  = ((λ _, (read_table fs housing_csv, [EvReadCsv housing_csv])) <$> ws, fs)
  ∧ Forall (λ rt, fetches rt.2 = 0 ∧ extractions rt.2 = 0) (calls_in_turn ws fs).1
  ∧ ∀ c', (calls_in_turn ws (<[tarball_path := File c']> fs)).1
          = (calls_in_turn ws fs).1.
Proof.
  intros Hfile.
  assert (Hhit : file_at fs tarball_path = true) by (unfold file_at; by rewrite Hfile).
  rewrite calls_in_turn_hit by done. split_and!; [done| |].
  - simpl. apply Forall_fmap, Forall_true. done.
  - intros c'. rewrite calls_in_turn_hit.
    + simpl. by rewrite read_table_other.
    + unfold file_at. by rewrite lookup_insert_eq.
Qed.

(** A download cut short leaves what arrived at the cache path. *)
Lemma truncated_download_leaves_file w fs body :
  file_at fs tarball_path = false →
  can_mkdir w fs data_dir = true →
  remote w url = Truncated body →
  can_store w fs tarball_path = true →
  outcome w fs = Raise NetworkError
  ∧ files_after w fs !! tarball_path = Some (File body).
Proof.
  intros Hmiss Hmkdir Hserve Hstore. unfold outcome, files_after.
  rewrite call_miss, download_and_extract_run by done. simpl.
  rewrite Hmkdir, Hserve, Hstore. simpl. by rewrite lookup_insert_eq.
Qed.

Lemma cache_valid_by_existence_sample :
  calls_in_turn [online; online] (files_after flaky ∅)
  = ([(Raise FileNotFoundError, [EvReadCsv housing_csv]);
      (Raise FileNotFoundError, [EvReadCsv housing_csv])],
     files_after flaky ∅).
Proof.
  destruct (truncated_download_leaves_file flaky ∅ (Text "PK")) as [_ Hleft];
    [reflexivity..|].
  destruct (cache_valid_by_existence [online; online] _ _ Hleft) as (-> & _).
  reflexivity.
Defined.



(** C9. The check looks at the archive, not at the table: with the
    archive in place and the table file missing, a call fetches nothing,
    extracts nothing, leaves the filesystem as it is and fails with
    file-not-found when it reads the table; without the archive a call
    starts the download whether or not the table file is there. *)
Theorem archive_without_table_not_repaired :
  (∀ w fs c,
     fs !! tarball_path = Some (File c) →
     fs !! housing_csv = None →
     fetches (steps w fs) = 0
     ∧ extractions (steps w fs) = 0
     ∧ steps w fs = [EvReadCsv housing_csv]
     ∧ files_after w fs = fs
     ∧ outcome w fs = Raise FileNotFoundError)
  ∧ (∀ w fs,
       file_at fs tarball_path = false →
       head (steps w fs) = Some (EvMkdir data_dir)).
Proof.
  split.
  - intros w fs c Hfile Hnone. unfold outcome, files_after, steps.
    rewrite call_hit by (unfold file_at; by rewrite Hfile). simpl.
    unfold read_table. by rewrite Hnone.
  - intros w fs Hmiss. unfold steps.
    rewrite call_miss, download_and_extract_run by done. simpl.
    destruct (can_mkdir w fs data_dir); [|done].
    destruct (remote w url) as [|body|body]; try done;
      destruct (can_store w fs tarball_path); try done.
    destruct (opens body); [|done].
    by destruct (extracted w data_dir body _) as [[[]|e] fs'].
Qed.

Lemma archive_without_table_sample :
  outcome online archive_only = Raise FileNotFoundError
  ∧ steps online archive_only = [EvReadCsv housing_csv].
Proof.
  destruct (proj1 archive_without_table_not_repaired online archive_only
              (Archive sample_members)) as (_ & _ & Hs & _ & Ho);
    [reflexivity..|].
  by split.
Defined.

(** ** Columns of a frame *)

Section frames.
Context {A : Type}.
Implicit Types (df : DataFrame A) (name : string) (col : list A).

Lemma getitem_setitem_eq df name col : getitem (setitem df name col) name = Ok col.
Proof.
  induction df as [|[k c] df IH]; simpl.
  - by rewrite decide_True.
  - destruct (decide (k = name)) as [->|Hne]; simpl.
    + by rewrite decide_True.
    + by rewrite decide_False.
Qed.

Lemma getitem_setitem_ne df name name' col :
  name ≠ name' → getitem (setitem df name col) name' = getitem df name'.
Proof.
  intros Hne. induction df as [|[k c] df IH]; simpl.
  - by rewrite decide_False.
  - destruct (decide (k = name)) as [->|Hk]; simpl.
    + by rewrite !decide_False.
    + by rewrite IH.
Qed.

Lemma setitem_same df name col : getitem df name = Ok col → setitem df name col = df.
Proof.
  induction df as [|[k c] df IH]; simpl; [done|].
  destruct (decide (k = name)) as [->|Hk].
  - by intros [= ->].
  - intros Hget. by rewrite IH.
Qed.
End frames.

Lemma assign_ratio_run `{TrueDiv A} target num den (df : DataFrame A) :
  assign_ratio target num den df
  = match getitem df num with
    | Ok a =>
        match getitem df den with
        | Ok b => (Ok tt, setitem df target (col_div a b))
        | Raise e => (Raise e, df)
        end
    | Raise e => (Raise e, df)
    end.
Proof.
  unfold assign_ratio, bind, get_col, set_col.
  destruct (getitem df num); [|done]. by destruct (getitem df den).
Qed.

(** One step of evaluating the cell: a statement is replaced by what it
    does, a column that was not assigned is read from the frame below,
    and assigning a column the cells it already has changes nothing. *)
Ltac ratio_step :=
  first
    [ rewrite assign_ratio_run
    | rewrite getitem_setitem_ne by done
    | match goal with H : getitem _ _ = _ |- _ => rewrite H end
    | rewrite setitem_same
        by (rewrite ?getitem_setitem_ne by done; apply getitem_setitem_eq)
    | progress simpl ].

(** C8. Running the cell of the ratio features a second time, on the
    frame the first run left, ends the same way and leaves the same
    frame: the base columns are not touched by the cell, so every ratio
    is computed from the same cells and has the same values both
    times. *)
Theorem ratio_features_idempotent `{TrueDiv A} (df : DataFrame A) :
  add_ratio_features (add_ratio_features df).2 = add_ratio_features df
  ∧ Forall (λ name, getitem (add_ratio_features df).2 name = getitem df name)
           base_columns.
Proof.
  unfold add_ratio_features, bind, base_columns.
  destruct (getitem df "total_rooms") as [rooms|e1] eqn:Hrooms,
    (getitem df "households") as [households|e2] eqn:Hhouseholds,
    (getitem df "total_bedrooms") as [bedrooms|e3] eqn:Hbedrooms,
    (getitem df "population") as [population|e4] eqn:Hpopulation;
    repeat ratio_step;
    (split; [done|]; repeat constructor; by rewrite ?getitem_setitem_ne).
Qed.

(** With the four base columns in the frame the cell runs through, and
    each new column holds the row-by-row quotient of its two base
    columns. *)
Lemma ratio_features_values `{TrueDiv A} (df : DataFrame A)
    (rooms households bedrooms population : list A) :
  getitem df "total_rooms" = Ok rooms →
  getitem df "households" = Ok households →
  getitem df "total_bedrooms" = Ok bedrooms →
  getitem df "population" = Ok population →
  (add_ratio_features df).1 = Ok tt
  ∧ getitem (add_ratio_features df).2 "rooms_per_house" = Ok (col_div rooms households)
  ∧ getitem (add_ratio_features df).2 "bedrooms_ratio" = Ok (col_div bedrooms rooms)
  ∧ getitem (add_ratio_features df).2 "people_per_house"
    = Ok (col_div population households).
Proof.
  intros Hrooms Hhouseholds Hbedrooms Hpopulation.
  unfold add_ratio_features, bind. repeat ratio_step.
  split_and!; [done|..];
    by rewrite ?getitem_setitem_ne, getitem_setitem_eq by done.
Qed.

(** Two districts, the second one without households: the quotients are
    the IEEE ones, and running the cell again changes nothing. *)
Example ratio_features_districts :
  let housing : DataFrame float :=
    [("total_rooms", [880; 7099]); ("total_bedrooms", [129; 1106]);
     ("population", [322; 0]); ("households", [126; 0])]%float in
  getitem (add_ratio_features housing).2 "people_per_house" = Ok [322 / 126; nan]%float
  ∧ getitem (add_ratio_features housing).2 "rooms_per_house"
    = Ok [880 / 126; infinity]%float
  ∧ add_ratio_features (add_ratio_features housing).2 = add_ratio_features housing.
Proof. split_and!; vm_compute; reflexivity. Qed.

(** ** One-hot rows *)

Lemma length_one_hot categories x : length (one_hot categories x) = length categories.
Proof. unfold one_hot. by rewrite length_fmap. Qed.

Lemma binary_one_hot categories x : binary (one_hot categories x).
Proof.
  unfold binary, one_hot. apply Forall_fmap, Forall_true. intros c. simpl.
  destruct (decide (c = x)); auto.
Qed.

Lemma ones_one_hot_absent categories x : x ∉ categories → ones (one_hot categories x) = 0.
Proof.
  unfold ones, one_hot. induction categories as [|c cs IH]; simpl; [done|].
  intros Hx. apply not_elem_of_cons in Hx as [Hne Hx].
  rewrite decide_False by done. rewrite filter_cons_False by done. by apply IH.
Qed.

Lemma ones_one_hot categories x :
  NoDup categories → x ∈ categories → ones (one_hot categories x) = 1.
Proof.
  unfold ones, one_hot. induction 1 as [|c cs Hc Hnd IH]; simpl.
  - by intros ?%elem_of_nil.
  - intros Hx. destruct (decide (c = x)) as [->|Hne].
    + rewrite filter_cons_True by done. simpl. f_equal.
      by apply ones_one_hot_absent.
    + rewrite filter_cons_False by done. apply IH.
      apply elem_of_cons in Hx as [->|Hx]; done.
Qed.

Lemma decode_one_hot categories x :
  x ∈ categories → decode_row categories (one_hot categories x) = Some x.
Proof.
  unfold decode_row, one_hot. induction categories as [|c cs IH]; simpl.
  - by intros ?%elem_of_nil.
  - intros Hx. destruct (decide (c = x)) as [->|Hne]; simpl; [done|].
    apply elem_of_cons in Hx as [->|Hx]; [done|].
    specialize (IH Hx).
    destruct (position_of_one _) as [i|]; simpl in *; done.
Qed.

Lemma transform_known categories column :
  Forall (λ x, x ∈ categories) column →
  transform categories column = Ok (one_hot categories <$> column).
Proof. intros Hall. unfold transform. by rewrite decide_True. Qed.

Lemma fit_spec column :
  NoDup (fit column)
  ∧ (∀ x, x ∈ fit column ↔ x ∈ column)
  ∧ length (fit column) = length (remove_dups column)
  ∧ Sorted String.le (fit column).
Proof.
  unfold fit. split_and!.
  - rewrite merge_sort_Permutation. apply NoDup_remove_dups.
  - intros x. rewrite merge_sort_Permutation. apply elem_of_remove_dups.
  - by rewrite merge_sort_Permutation.
  - apply (Sorted_merge_sort String.le).
Qed.

Lemma feature_names_distinct prefix categories :
  NoDup categories →
  NoDup (get_feature_names_out prefix categories)
  ∧ length (get_feature_names_out prefix categories) = length categories.
Proof.
  intros Hnd. unfold get_feature_names_out. split; [|by rewrite length_fmap].
  apply NoDup_fmap_2; [|done].
  intros c c' Heq. apply (inj (String.app prefix)) in Heq.
  by apply (inj (String.app "_")) in Heq.
Qed.

(** C5. Over a category set without repeats that holds every value of
    the column, encoding gives one row per value, with one binary entry
    per category and exactly one 1 in it, and locating the 1 gives the
    value back: decoding the encoded column returns the column.  The
    category set that fitting learns from a column is such a set for that
    column. *)
Theorem one_hot_roundtrip :
  (∀ categories column,
     NoDup categories →
     Forall (λ x, x ∈ categories) column →
     ∃ rows,
       transform categories column = Ok rows
       ∧ length rows = length column
       ∧ Forall (λ row, length row = length categories
                        ∧ binary row ∧ ones row = 1) rows
       ∧ inverse_transform categories rows = Some column)
  ∧ (∀ column,
       NoDup (fit column)
       ∧ (∀ x, x ∈ fit column ↔ x ∈ column)
       ∧ length (fit column) = length (remove_dups column)
       ∧ ∃ rows,
           fit_transform column = Ok rows
           ∧ Forall (λ row, length row = length (fit column)
                            ∧ binary row ∧ ones row = 1) rows
           ∧ inverse_transform (fit column) rows = Some column).
Proof.
  assert (Hgen : ∀ categories column,
     NoDup categories →
     Forall (λ x, x ∈ categories) column →
     ∃ rows,
       transform categories column = Ok rows
       ∧ length rows = length column
       ∧ Forall (λ row, length row = length categories
                        ∧ binary row ∧ ones row = 1) rows
       ∧ inverse_transform categories rows = Some column).
  { intros categories column Hnd Hall.
    exists (one_hot categories <$> column). split_and!.
    - by apply transform_known.
    - by rewrite length_fmap.
    - apply Forall_fmap. eapply Forall_impl; [exact Hall|]. intros x Hx. simpl.
      split_and!; [apply length_one_hot|apply binary_one_hot|by apply ones_one_hot].
    - unfold inverse_transform. apply mapM_fmap_Forall_Some.
      eapply Forall_impl; [exact Hall|]. intros x Hx. by apply decode_one_hot. }
  split; [exact Hgen|].
  intros column. destruct (fit_spec column) as (Hnd & Hin & Hlen & _).
  split_and!; [done..|].
  destruct (Hgen (fit column) column Hnd) as (rows & ? & ? & ? & ?).
  { apply Forall_forall. intros x Hx. by apply Hin. }
  by exists rows.
Qed.

Lemma one_hot_roundtrip_sample :
  ∃ rows,
    transform ["Blue"; "Green"; "Orange"] ["Green"; "Blue"; "Green"] = Ok rows
    ∧ length rows = 3
    ∧ Forall (λ row, length row = 3 ∧ binary row ∧ ones row = 1) rows
    ∧ inverse_transform ["Blue"; "Green"; "Orange"] rows = Some ["Green"; "Blue"; "Green"].
Proof.
  apply (proj1 one_hot_roundtrip ["Blue"; "Green"; "Orange"] ["Green"; "Blue"; "Green"]).
  - compute_done.
  - compute_done.
Defined.

(** C6. The column red, blue, green, red: the categories in alphabetical
    order are blue, green, red, and the rows are 0 0 1, 1 0 0, 0 1 0,
    0 0 1, in that order. *)
Theorem one_hot_colours :
  fit ["red"; "blue"; "green"; "red"] = ["blue"; "green"; "red"]
  ∧ transform ["blue"; "green"; "red"] ["red"; "blue"; "green"; "red"]
    = Ok [[0; 0; 1]; [1; 0; 0]; [0; 1; 0]; [0; 0; 1]]%Z
  ∧ fit_transform ["red"; "blue"; "green"; "red"]
    = Ok [[0; 0; 1]; [1; 0; 0]; [0; 1; 0]; [0; 0; 1]]%Z.
Proof. split_and!; vm_compute; reflexivity. Qed.

(** The column of the sparse-output cell (line 257). *)
Example one_hot_sparse_cell_column :
  fit_transform ["red"; "blue"; "green"] = Ok [[0; 0; 1]; [1; 0; 0]; [0; 1; 0]]%Z
  ∧ get_feature_names_out "Color" (fit ["red"; "blue"; "green"])
    = ["Color_blue"; "Color_green"; "Color_red"].
Proof. split; vm_compute; reflexivity. Qed.

(** ** Running cells *)

Lemma resolve_bound names k :
  Forall (λ n, n ∈ namespace k) names → resolve names k = (Ok tt, k).
Proof.
  induction 1 as [|n names Hn _ IH]; simpl; [done|].
  unfold bind, get. by rewrite decide_True.
Qed.

Lemma resolve_unbound n k :
  n ∉ namespace k → resolve [n] k = (Raise (NameError n), k).
Proof. intros Hn. simpl. unfold bind, get. by rewrite decide_False. Qed.

Lemma run_cell_app lib c1 c2 k :
  run_cell lib (c1 ++ c2) k
  = match run_cell lib c1 k with
    | (Ok _, k') => run_cell lib c2 k'
    | (Raise e, k') => (Raise e, k')
    end.
Proof.
  revert k. induction c1 as [|s c1 IH]; intros k; simpl; [done|].
  unfold bind. destruct (exec_stmt lib s k) as [[[]|e] k']; [|done].
  apply IH.
Qed.

Lemma exec_stmt_run lib s k :
  Forall (λ n, n ∈ namespace k) (reads s) →
  exec_stmt lib s k
  = if calls s && negb (lib (line s)) then (Raise LibraryError, k)
    else (Ok tt, Kernel (namespace k ∪ list_to_set (binds s)) (executed k ++ [line s])).
Proof.
  intros Hreads. unfold exec_stmt, bind. rewrite resolve_bound by done.
  by destruct (calls s && negb (lib (line s))).
Qed.

(** A cell whose names are all in scope can only be stopped by a library
    call: it runs to its end when they all return, binding the names of
    its statements, and stops at a line of its own otherwise. *)
Lemma run_well_scoped lib avail cell k :
  well_scoped avail cell = true →
  Forall (λ n, n ∈ namespace k) avail →
  ∃ ns' ran,
    run_cell lib cell k
    = (if returns lib cell then Ok tt else Raise LibraryError,
       Kernel ns' (executed k ++ ran))
    ∧ ran `prefix_of` (line <$> cell)
    ∧ (returns lib cell = true →
       ns' = namespace k ∪ bound cell ∧ ran = line <$> cell).
Proof.
  revert avail k. induction cell as [|s cell IH]; intros avail [ns ran0] Hscope Havail.
  - exists ns, []. simpl. unfold ret, bound. simpl.
    rewrite app_nil_r, union_empty_r_L. done.
  - simpl in Hscope. apply andb_true_iff in Hscope as [Hreads Hscope].
    simpl. unfold bind. rewrite exec_stmt_run.
    2:{ apply Forall_forall. intros n Hn. rewrite Forall_forall in Havail.
        apply Havail. rewrite forallb_forall in Hreads.
        apply list_elem_of_In, Hreads in Hn. by apply bool_decide_eq_true in Hn. }
    destruct (calls s && negb (lib (line s))) eqn:Hfail.
    + exists ns, []. apply andb_true_iff in Hfail as [Hc Hl%negb_true_iff].
      simpl. rewrite Hc, Hl, app_nil_r. simpl. split_and!; [done|apply prefix_nil|done].
    + assert (Hret : negb (calls s) || lib (line s) = true).
      { destruct (calls s), (lib (line s)); done. }
      rewrite Hret. simpl.
      destruct (IH (binds s ++ avail)
                  (Kernel (ns ∪ list_to_set (binds s)) (ran0 ++ [line s])) Hscope)
        as (ns' & ran & Hrun & Hpre & Hall).
      { simpl. apply Forall_app. split.
        - apply Forall_forall. intros n Hn. set_solver.
        - eapply Forall_impl; [exact Havail|]. set_solver. }
      simpl in *. rewrite Hrun.
      exists ns', (line s :: ran). split_and!.
      * by rewrite <- (assoc_L _).
      * by apply prefix_cons.
      * intros Hrest. destruct (Hall Hrest) as [-> ->]. split; [|done].
        unfold bound. simpl. by rewrite (assoc_L (∪)).
Qed.

Lemma run_cell_cons lib s cell k :
  run_cell lib (s :: cell) k
  = match exec_stmt lib s k with
    | (Ok _, k') => run_cell lib cell k'
    | (Raise e, k') => (Raise e, k')
    end.
Proof. done. Qed.

Lemma exec_label_encoder lib k :
  "LabelEncoder" ∉ namespace k →
  exec_stmt lib label_encoder_stmt k = (Raise (NameError "LabelEncoder"), k).
Proof.
  intros Hfree. unfold exec_stmt, bind. simpl reads.
  by rewrite resolve_unbound.
Qed.

Lemma reachable_unbound name ns :
  bound_nowhere name = true → reachable ns → name ∉ ns.
Proof.
  intros Hnowhere. induction 1 as [|ns cell s _ IH Hcell Hs]; [set_solver|].
  unfold bound_nowhere in Hnowhere. rewrite forallb_forall in Hnowhere.
  apply list_elem_of_In, Hnowhere in Hcell. rewrite forallb_forall in Hcell.
  apply list_elem_of_In, Hcell, bool_decide_eq_true in Hs.
  apply not_elem_of_union. split; [done|]. by rewrite elem_of_list_to_set.
Qed.

(** The cell up to the line where it stops. *)
Lemma one_hot_cell_run lib ns :
  "LabelEncoder" ∉ ns →
  ∃ ns' ran,
    run_cell lib one_hot_cell (Kernel ns [])
    = (if returns lib one_hot_cell_head
       then Raise (NameError "LabelEncoder") else Raise LibraryError,
       Kernel ns' ran)
    ∧ ran `prefix_of` (line <$> one_hot_cell_head)
    ∧ (returns lib one_hot_cell_head = true → ran = line <$> one_hot_cell_head).
Proof.
  intros Hfree.
  destruct (run_well_scoped lib [] one_hot_cell_head (Kernel ns []))
    as (ns' & ran & Hrun & Hpre & Hall); [by vm_compute|done|].
  unfold one_hot_cell. rewrite run_cell_app, Hrun.
  destruct (returns lib one_hot_cell_head) eqn:Hret.
  - destruct (Hall eq_refl) as [-> ->].
    rewrite run_cell_cons, exec_label_encoder.
    + by eexists _, _.
    + apply not_elem_of_union. split; [done|]. by vm_compute.
  - by eexists _, _.
Qed.

(** C10, as it holds of the cell.  From every namespace the notebook can
    have put the kernel in, and however the library calls behave, the
    one-hot demonstration cell does not run to its end: it stops before
    line 215, so none of the clustering statements runs.  Whenever the
    library calls of the lines before return, it stops at line 214 with
    a [NameError] for [LabelEncoder], a name that no statement of the
    notebook binds; when one of them raises, the cell stops there with
    that exception instead. *)
Theorem one_hot_cell_raises_name_error (lib : nat → bool) (ns : gset string) :
  reachable ns →
  let r := (run_cell lib one_hot_cell (Kernel ns [])).1 in
  let k := (run_cell lib one_hot_cell (Kernel ns [])).2 in
  bound_nowhere "LabelEncoder" = true
  ∧ r ≠ Ok tt
  ∧ Forall (λ l, l < 214) (executed k)
  ∧ Forall (λ s, line s ∉ executed k) (label_encoder_stmt :: one_hot_cell_tail)
  ∧ r = (if returns lib one_hot_cell_head
         then Raise (NameError "LabelEncoder") else Raise LibraryError)
  ∧ (returns lib one_hot_cell_head = true →
     executed k = line <$> one_hot_cell_head).
Proof.
  intros Hreach.
  assert (Hnowhere : bound_nowhere "LabelEncoder" = true) by (vm_compute; reflexivity).
  pose proof (reachable_unbound _ _ Hnowhere Hreach) as Hfree.
  destruct (one_hot_cell_run lib ns Hfree) as (ns' & ran & -> & Hpre & Hall).
  cbv zeta. cbn [fst snd executed].
  assert (Hran : Forall (λ l, l < 214) ran).
  { assert (Hhead : Forall (λ l, l < 214) (line <$> one_hot_cell_head))
      by (repeat constructor).
    destruct Hpre as [rest Hrest]. rewrite Hrest in Hhead.
    by apply Forall_app in Hhead as [? _]. }
  split_and!; try done.
  - by destruct (returns lib one_hot_cell_head).
  - assert (Hge : Forall (λ s, (214 ≤ line s)%nat) (label_encoder_stmt :: one_hot_cell_tail))
      by (repeat constructor; simpl; lia).
    eapply Forall_impl; [exact Hge|]. intros s Hs Hin.
    rewrite Forall_forall in Hran. apply Hran in Hin. simpl in Hs. lia.
Qed.

Lemma one_hot_cell_fresh_kernel :
  (run_cell (λ _, true) one_hot_cell (Kernel ∅ [])).1 = Raise (NameError "LabelEncoder")
  ∧ Forall (λ l, l < 214) (executed (run_cell (λ _, true) one_hot_cell (Kernel ∅ [])).2).
Proof.
  destruct (one_hot_cell_raises_name_error (λ _, true) ∅ reachable_fresh)
    as (_ & _ & Hlines & _ & Hr & _).
  split; [exact Hr|exact Hlines].
Defined.

(** C10 does not hold as "always a [NameError]": when the library call
    of an earlier line raises (line 205 passes [sparse=False], which a
    scikit-learn without that parameter rejects), the cell stops there
    with the exception of that call, and line 214 is not reached. *)
Lemma one_hot_cell_stops_earlier :
  (run_cell (λ l, bool_decide (l ≠ 205)) one_hot_cell (Kernel ∅ [])).1
  = Raise LibraryError
  ∧ (run_cell (λ l, bool_decide (l ≠ 205)) one_hot_cell (Kernel ∅ [])).1
    ≠ Raise (NameError "LabelEncoder")
  ∧ last (executed (run_cell (λ l, bool_decide (l ≠ 205)) one_hot_cell (Kernel ∅ [])).2)
    = Some 200%nat.
Proof.
  assert (Hrun : (run_cell (λ l, bool_decide (l ≠ 205)) one_hot_cell (Kernel ∅ [])).1
                 = Raise LibraryError) by (vm_compute; reflexivity).
  split_and!; [exact Hrun| |vm_compute; reflexivity].
  rewrite Hrun. discriminate.
Qed.

(* ================================================================= *)
(** * Part III: further properties of the notebooks' code *)
(* ================================================================= *)

Local Open Scope nat_scope.

(** ** The acquisition routine, whatever happens *)

(** The outcome, files and steps of a call on a cache miss, by the place
    where it stops. *)
Lemma call_miss_cases w fs :
  file_at fs tarball_path = false →
  (∃ e fs' k, call w fs = (Raise e, fs', take k download_steps)
              ∧ 1 ≤ k ≤ 3
              ∧ (k = 1 → fs' = fs)
              ∧ (k = 3 → file_at fs' tarball_path = true))
  ∨ (∃ fs', call w fs = (read_table fs' housing_csv, fs', download_steps)
            ∧ file_at fs' tarball_path = true).
Proof.
  intros Hmiss. rewrite call_miss, download_and_extract_run by done. simpl.
  destruct (can_mkdir w fs data_dir).
  2:{ left. exists FilesystemError, fs, 1. split_and!; auto; lia. }
  destruct (remote w url) as [|body|body].
  - left. eexists NetworkError, _, 2. split_and!; [done|lia..|done].
  - destruct (can_store w fs tarball_path).
    2:{ left. eexists FilesystemError, _, 2. split_and!; [done|lia..|done]. }
    destruct (opens body).
    2:{ left. eexists ExtractionError, _, 2. split_and!; [done|lia..|done]. }
    pose proof (extracted_keeps_archive w body (with_dir fs data_dir)) as Hcache.
    destruct (extracted w data_dir body _) as [[[]|e] fs']; simpl in *.
    + right. by exists fs'.
    + left. exists e, fs', 3. split_and!; [done|lia..|done].
  - left. destruct (can_store w fs tarball_path).
    + eexists NetworkError, _, 2. split_and!; [done|lia..|done].
    + eexists FilesystemError, _, 2. split_and!; [done|lia..|done].
Qed.

(** X1. Whatever the world and the filesystem, a call takes its steps in
    one fixed order and takes none of them twice: it either only reads
    the table, or goes through a beginning of mkdir, fetch, extract,
    read.  So there is at most one fetch and at most one extraction,
    nothing is extracted that was not fetched by the same call, and the
    table is read at most once, as the last step. *)
Theorem steps_in_order (w : world) (fs : filesystem) :
  (steps w fs = [EvReadCsv housing_csv]
   ∨ ∃ k, 1 ≤ k ≤ 4 ∧ steps w fs = take k download_steps)
  ∧ fetches (steps w fs) ≤ 1
  ∧ extractions (steps w fs) ≤ 1
  ∧ extractions (steps w fs) ≤ fetches (steps w fs)
  ∧ (∀ p, EvReadCsv p ∈ steps w fs → last (steps w fs) = Some (EvReadCsv housing_csv)).
Proof.
  unfold steps. destruct (file_at fs tarball_path) eqn:Hcache.
  - rewrite call_hit by done. simpl. split_and!; auto.
  - destruct (call_miss_cases w fs Hcache)
      as [(e & fs' & k & -> & Hk & _)|(fs' & -> & _)]; simpl.
    + assert (k = 1 ∨ k = 2 ∨ k = 3) as [->|[->| ->]] by lia;
        (split_and!;
         [right; eexists; split; [|done]; lia|vm_compute; lia..|]);
        intros p Hp; exfalso; simpl in Hp;
        repeat (apply elem_of_cons in Hp as [Hp|Hp]; [done|]);
        by apply elem_of_nil in Hp.
    + split_and!; [right; exists 4; split; [lia|done]|vm_compute; lia..|done].
Qed.

Lemma grown_under_refl dir fs : grown_under dir fs fs.
Proof. by split_and!. Qed.

Lemma grown_under_trans dir fs1 fs2 fs3 :
  grown_under dir fs1 fs2 → grown_under dir fs2 fs3 → grown_under dir fs1 fs3.
Proof.
  intros (Hf1 & Hd1 & Ho1) (Hf2 & Hd2 & Ho2). split_and!.
  - intros p Hp. by apply Hf2, Hf1.
  - intros p Hp. by apply Hd2, Hd1.
  - intros p Hne Hout. rewrite Ho2, Ho1; done.
Qed.

Lemma grown_under_with_dir fs dir : grown_under dir fs (with_dir fs dir).
Proof.
  unfold with_dir. destruct (fs !! dir) eqn:Hdir; [apply grown_under_refl|].
  split_and!.
  - intros p. unfold file_at. destruct (decide (dir = p)) as [<-|Hne].
    + by rewrite Hdir.
    + by rewrite lookup_insert_ne.
  - intros p Hp. destruct (decide (dir = p)) as [<-|Hne].
    + by rewrite lookup_insert_eq.
    + by rewrite lookup_insert_ne.
  - intros p Hne _. by rewrite lookup_insert_ne.
Qed.

Lemma grown_under_store dir name c fs :
  fs !! join_path dir name ≠ Some Dir →
  grown_under dir fs (<[join_path dir name := File c]> fs).
Proof.
  intros Hnodir. split_and!.
  - intros p. unfold file_at. destruct (decide (join_path dir name = p)) as [<-|Hne].
    + by rewrite lookup_insert_eq.
    + by rewrite lookup_insert_ne.
  - intros p Hp. destruct (decide (join_path dir name = p)) as [<-|Hne]; [done|].
    by rewrite lookup_insert_ne.
  - intros p _ Hout. rewrite lookup_insert_ne; [done|]. intros <-. by eapply Hout.
Qed.

Lemma extracted_files w dir body fs :
  (extracted w dir body fs).2 = (extract_members w dir (members_of body) fs).2.
Proof.
  unfold extracted.
  by destruct (extract_members w dir (members_of body) fs) as [[[]|e] fs'].
Qed.

Lemma grown_under_extract w body fs :
  Forall (λ name, plain_name name = true) (members_of body).*1 →
  grown_under data_dir fs (extracted w data_dir body fs).2.
Proof.
  intros Hplain. pose proof (extracted_over w data_dir body fs) as Hover.
  rewrite extracted_files in *.
  destruct (extract_members_plain w (members_of body) fs Hplain) as (Hout & _).
  split_and!.
  - intros p. by apply kept_or_written_file.
  - intros p. by apply kept_or_written_dir.
  - done.
Qed.

Lemma tarball_under_data_dir : tarball_path = join_path data_dir "housing.tgz".
Proof. done. Qed.

(** X2. When the members of the archive the host serves have plain names
    (relative, and no name empty, [.] or [..]), a call never removes
    anything and writes nowhere but in [data]: every regular file is
    still a regular file afterwards, every directory still a directory,
    and every path other than [data] and the paths [data/...] holds
    exactly what it held. *)
Theorem writes_only_under_data (w : world) (fs : filesystem) :
  Forall (λ name, plain_name name = true) (served_members w url).*1 →
  grown_under data_dir fs (files_after w fs).
Proof.
  intros Hplain.
  unfold files_after. destruct (file_at fs tarball_path) eqn:Hcache.
  { rewrite call_hit by done. apply grown_under_refl. }
  rewrite call_miss by done.
  assert (Hgrow : grown_under data_dir fs (files (download_and_extract w (State fs [])).2)).
  { rewrite download_and_extract_run. simpl.
    pose proof (grown_under_with_dir fs data_dir) as Hdir.
    assert (Hstore : ∀ body,
              can_store w fs tarball_path = true →
              grown_under data_dir fs
                (<[tarball_path := File body]> (with_dir fs data_dir))).
    { intros body Hcan. eapply grown_under_trans; [exact Hdir|].
      rewrite tarball_under_data_dir. apply grown_under_store.
      rewrite <- tarball_under_data_dir, lookup_with_dir_ne by done.
      by apply can_store_not_dir in Hcan. }
    unfold served_members in Hplain.
    destruct (can_mkdir w fs data_dir); [|apply grown_under_refl].
    destruct (remote w url) as [|body|body]; [done|..];
      destruct (can_store w fs tarball_path) eqn:Hcan; simpl; auto.
    destruct (opens body); simpl; auto.
    eapply grown_under_trans; [by apply (Hstore body)|].
    by apply grown_under_extract. }
  by destruct (download_and_extract w (State fs [])) as [[[]|e] st].
Qed.

Lemma writes_only_under_data_sample :
  grown_under data_dir ∅ (files_after online ∅).
Proof. apply (writes_only_under_data online ∅). repeat constructor. Defined.

(** X3. Whenever a call returns a table, the archive is in place and the
    table is what the table file on disk now reads as: the file is a text
    file and parsing it gives exactly the table returned. *)
Theorem returned_table_is_on_disk (w : world) (fs : filesystem) (df : DataFrame string) :
  outcome w fs = Ok df →
  file_at (files_after w fs) tarball_path = true
  ∧ ∃ text, files_after w fs !! housing_csv = Some (File (Text text))
            ∧ read_csv_text text = Ok df.
Proof.
  intros Hok. destruct (call_returns w fs df Hok) as (Hcache & Hread & _).
  split; [done|]. unfold read_table in Hread.
  destruct (files_after w fs !! housing_csv) as [[[text|ms|ms|px]|]|]; try done.
  by exists text.
Qed.

Lemma returned_table_is_on_disk_sample :
  ∃ text, files_after online ∅ !! housing_csv = Some (File (Text text))
          ∧ read_csv_text text = Ok (from_records sample_header sample_records).
Proof.
  apply (returned_table_is_on_disk online ∅ (from_records sample_header sample_records)).
  vm_compute. reflexivity.
Defined.

(** X4. A download that leaves at the cache path something [tarfile.open]
    does not get to see or does not accept (the body was cut short, or
    arrived whole but is no archive) is never repaired: the call raises
    before anything is extracted, what arrived stays at the cache path,
    and every later call, in whatever world, fetches nothing and only
    reads the table file as it was before the download, so without such
    a file every later call fails with file-not-found. *)
Theorem bad_download_is_never_repaired (w : world) (fs : filesystem)
    (body : content) (ws : list world) :
  file_at fs tarball_path = false →
  can_mkdir w fs data_dir = true →
  can_store w fs tarball_path = true →
  remote w url = Truncated body
  ∨ (remote w url = Complete body ∧ opens body = false) →
  (outcome w fs = Raise NetworkError ∨ outcome w fs = Raise ExtractionError)
  ∧ steps w fs = [EvMkdir data_dir; EvFetch url tarball_path]
  ∧ files_after w fs !! tarball_path = Some (File body)
  ∧ calls_in_turn ws (files_after w fs)
    = ((λ _, (read_table fs housing_csv, [EvReadCsv housing_csv])) <$> ws,
       files_after w fs)
  ∧ (fs !! housing_csv = None →
     Forall (λ rt, rt = (Raise FileNotFoundError, [EvReadCsv housing_csv]))
            (calls_in_turn ws (files_after w fs)).1).
Proof.
  intros Hmiss Hmkdir Hstore Hbad.
  assert (Hcall : ∃ e, (e = NetworkError ∨ e = ExtractionError)
            ∧ call w fs = (Raise e, <[tarball_path := File body]> (with_dir fs data_dir),
                           [EvMkdir data_dir; EvFetch url tarball_path])).
  { rewrite call_miss, download_and_extract_run by done. simpl.
    rewrite Hmkdir. destruct Hbad as [Hr|[Hr Hb]]; rewrite Hr, Hstore; simpl;
      [eauto|]. rewrite Hb. eauto. }
  destruct Hcall as (e & He & Hcall).
  unfold outcome, files_after, steps. rewrite Hcall. simpl.
  assert (Hread : read_table (<[tarball_path := File body]> (with_dir fs data_dir))
                    housing_csv = read_table fs housing_csv).
  { unfold read_table. rewrite lookup_insert_ne, lookup_with_dir_ne; done. }
  rewrite calls_in_turn_hit by (unfold file_at; by rewrite lookup_insert_eq).
  rewrite Hread. split_and!.
  - destruct He as [-> | ->]; auto.
  - done.
  - by rewrite lookup_insert_eq.
  - done.
  - intros Hnone. simpl. apply Forall_fmap, Forall_true. intros ?. simpl.
    unfold read_table. by rewrite Hnone.
Qed.

Lemma bad_download_is_never_repaired_sample :
  outcome corrupt ∅ = Raise ExtractionError
  ∧ (calls_in_turn [online; online] (files_after corrupt ∅)).1
    = [(Raise FileNotFoundError, [EvReadCsv housing_csv]);
       (Raise FileNotFoundError, [EvReadCsv housing_csv])].
Proof.
  destruct (bad_download_is_never_repaired corrupt ∅ (Text "<html>")
              [online; online]) as (Hout & _ & _ & Hlater & _);
    [reflexivity| reflexivity | reflexivity | right; split; reflexivity |].
  split.
  - destruct Hout as [Hout|Hout]; [|exact Hout].
    exfalso. vm_compute in Hout. discriminate Hout.
  - rewrite Hlater. reflexivity.
Defined.

Lemma can_extract_insert_with_dir w fs p n ms :
  p ≠ data_dir →
  can_extract w (<[p := n]> (with_dir fs data_dir)) data_dir ms
  = can_extract w (<[p := n]> fs) data_dir ms.
Proof.
  intros Hne. unfold can_extract.
  by rewrite !with_dir_insert_ne, with_dir_idemp by done.
Qed.

(** X5. A host that cannot be reached does no lasting harm: the call
    raises, leaves the directory it made and no cache file, so the next
    call downloads again, and if by then the host serves an archive of
    well-named members and the files can be written it goes through the
    whole download.  The directory the failed call made is reused: the
    second call need not be allowed to make it. *)
Theorem unreachable_host_is_retried (w1 w2 : world) (fs : filesystem)
    (ms : list (string * string)) :
  file_at fs tarball_path = false →
  can_mkdir w1 fs data_dir = true →
  remote w1 url = Unreachable →
  remote w2 url = Complete (Archive ms) →
  can_store w2 fs tarball_path = true →
  well_named ms →
  can_extract w2 (<[tarball_path := File (Archive ms)]> fs) data_dir ms = true →
  outcome w1 fs = Raise NetworkError
  ∧ files_after w1 fs !! data_dir = Some Dir
  ∧ file_at (files_after w1 fs) tarball_path = false
  ∧ steps w2 (files_after w1 fs) = download_steps
  ∧ file_at (files_after w2 (files_after w1 fs)) tarball_path = true
  ∧ outcome w2 (files_after w1 fs)
    = read_table (files_after w2 (files_after w1 fs)) housing_csv.
Proof.
  intros Hmiss Hmkdir Hdown Hserve Hstore _ Hextract.
  assert (Hfirst : call w1 fs
            = (Raise NetworkError, with_dir fs data_dir,
               [EvMkdir data_dir; EvFetch url tarball_path])).
  { rewrite call_miss, download_and_extract_run by done. simpl.
    by rewrite Hmkdir, Hdown. }
  unfold outcome at 1, files_after at 1 2 3 5, steps.
  unfold outcome, files_after. rewrite Hfirst. simpl.
  assert (Hmiss' : file_at (with_dir fs data_dir) tarball_path = false).
  { unfold file_at. by rewrite lookup_with_dir_ne. }
  destruct (call_completes w2 (with_dir fs data_dir) ms)
    as (fs' & _ & -> & Hcache & _); auto.
  - unfold can_mkdir. by erewrite lookup_with_dir.
  - by rewrite can_store_with_dir.
  - by rewrite can_extract_insert_with_dir.
  - simpl. split_and!; try done. by eapply lookup_with_dir.
Qed.

Lemma unreachable_host_is_retried_sample :
  outcome offline ∅ = Raise NetworkError
  ∧ files_after offline ∅ !! data_dir = Some Dir
  ∧ steps online (files_after offline ∅) = download_steps.
Proof.
  destruct (unreachable_host_is_retried offline online ∅ sample_members)
    as (Hout & Hdir & _ & Hsteps & _);
    [reflexivity|reflexivity|reflexivity|reflexivity|reflexivity|
     by repeat constructor|vm_compute; reflexivity|].
  by split_and!.
Defined.

(** X23. An archive cut short inside the table file is half unpacked and
    then served for good: the call raises after the extraction, but the
    part of the table that was written stays on disk next to the cache
    file, so every later call, in whatever world, fetches nothing and
    parses that part as if it were the table. *)
Theorem cut_archive_leaves_partial_table (w : world) (fs : filesystem)
    (ms : list (string * string)) (text : string) (ws : list world) :
  file_at fs tarball_path = false →
  can_mkdir w fs data_dir = true →
  remote w url = Complete (Damaged ms) →
  can_store w fs tarball_path = true →
  well_named ms →
  NoDup ms.*1 →
  can_extract w (<[tarball_path := File (Damaged ms)]> fs) data_dir ms = true →
  ("housing/housing.csv", text) ∈ ms →
  outcome w fs = Raise ExtractionError
  ∧ steps w fs = [EvMkdir data_dir; EvFetch url tarball_path;
                  EvExtract tarball_path data_dir]
  ∧ files_after w fs !! housing_csv = Some (File (Text text))
  ∧ calls_in_turn ws (files_after w fs)
    = ((λ _, (read_csv_text text, [EvReadCsv housing_csv])) <$> ws,
       files_after w fs).
Proof.
  intros Hmiss Hmkdir Hserve Hstore Hnamed Hnodup Hextract Htable.
  apply can_extract_true in Hextract.
  rewrite with_dir_insert_ne in Hextract by done.
  destruct (well_named_unpacked w (Damaged ms) ms (with_dir fs data_dir) Hnamed)
    as (_ & Hmem).
  pose proof (extracted_keeps_archive w (Damaged ms) (with_dir fs data_dir)) as Hkeep.
  assert (Hcall : ∃ fs', call w fs
            = (Raise ExtractionError, fs',
               [EvMkdir data_dir; EvFetch url tarball_path;
                EvExtract tarball_path data_dir])
            ∧ file_at fs' tarball_path = true
            ∧ fs' !! housing_csv = Some (File (Text text))).
  { rewrite call_miss, download_and_extract_run by done. simpl.
    rewrite Hmkdir, Hserve, Hstore. simpl.
    unfold extracted in *. simpl in *.
    destruct (extract_members w data_dir ms _) as [r fs']. simpl in *. subst r.
    exists fs'. split_and!; [done..|].
    change housing_csv with (join_path data_dir "housing/housing.csv").
    by apply Hmem. }
  destruct Hcall as (fs' & Hcall & Hcache & Hcsv).
  unfold outcome, files_after, steps. rewrite Hcall. simpl.
  split_and!; [done..|].
  rewrite calls_in_turn_hit by done. unfold read_table. by rewrite Hcsv.
Qed.

Lemma cut_archive_leaves_partial_table_sample :
  outcome cut_short ∅ = Raise ExtractionError
  ∧ (calls_in_turn [offline; online] (files_after cut_short ∅)).1
    = [(Ok (from_records sample_header (take 1 sample_records)),
        [EvReadCsv housing_csv]);
       (Ok (from_records sample_header (take 1 sample_records)),
        [EvReadCsv housing_csv])].
Proof.
  destruct (cut_archive_leaves_partial_table cut_short ∅
              [("housing/housing.csv", csv_text sample_header (take 1 sample_records))]
              (csv_text sample_header (take 1 sample_records)) [offline; online])
    as (Hout & _ & _ & Hlater).
  - reflexivity.
  - reflexivity.
  - reflexivity.
  - reflexivity.
  - by repeat constructor.
  - repeat constructor. by intros ?%elem_of_nil.
  - vm_compute. reflexivity.
  - by left.
  - split; [exact Hout|]. rewrite Hlater. vm_compute. reflexivity.
Defined.

Lemma route_out name :
  has_char SLASH name = false → name ≠ "" →
  start_of ("../" +:+ name) = []
  ∧ route data_dir ("../" +:+ name) = [data_dir; ".."; name].
Proof.
  intros Hslash Hname. unfold start_of, route, components. simpl.
  rewrite split_on_absent by done.
  by rewrite filter_cons_True, filter_cons_True by done.
Qed.

(** X24. The names in the archive decide where its members land, and the
    routine does not look at them: a member named [../name] is written
    next to [data], not in it, over whatever regular file was there, and
    the call goes on to read the table as if nothing had happened. *)
Theorem member_name_leaves_data (w : world) (fs : filesystem)
    (name body : string) :
  file_at fs tarball_path = false →
  can_mkdir w fs data_dir = true →
  remote w url = Complete (Archive [("../" +:+ name, body)]) →
  can_store w fs tarball_path = true →
  plain_name name = true →
  has_char SLASH name = false →
  name ≠ data_dir →
  can_store w fs name = true →
  steps w fs = download_steps
  ∧ files_after w fs !! name = Some (File (Text body))
  ∧ (fs !! name ≠ Some (File (Text body)) →
     ¬ grown_under data_dir fs (files_after w fs)).
Proof.
  intros Hmiss Hmkdir Hserve Hstore Hplain Hslash Hdata Hname.
  assert (Hsplit : split_on SLASH name = [name]) by by apply split_on_absent.
  assert (Hcomp : name ≠ "" ∧ name ≠ "." ∧ name ≠ "..").
  { unfold plain_name in Hplain. rewrite Hsplit in Hplain. simpl in Hplain.
    rewrite andb_true_r in Hplain. by apply bool_decide_eq_true in Hplain. }
  destruct Hcomp as (Hn1 & Hn2 & Hn3).
  assert (Htar : name ≠ tarball_path).
  { intros ->. done. }
  assert (Hout : ∀ x, name ≠ join_path data_dir x).
  { intros x ->. unfold join_path in Hslash.
    rewrite !has_char_app in Hslash. simpl in Hslash. done. }
  destruct (route_out name Hslash Hn1) as [Hstart Hroute].
  set (fs2 := <[tarball_path := File (Archive [("../" +:+ name, body)])]>
                (with_dir fs data_dir)).
  assert (Hat : fs2 !! name = fs !! name).
  { unfold fs2. rewrite lookup_insert_ne, lookup_with_dir_ne; done. }
  assert (Hrun : extract_members w data_dir [("../" +:+ name, body)] fs2
                 = (Ok tt, <[name := File (Text body)]> fs2)).
  { rewrite extract_members_cons, extract_member_run, Hstart, Hroute.
    cbn [last removelast reach].
    rewrite !decide_False by done. rewrite decide_True by done.
    unfold bind, get. cbn zeta.
    assert (Hdir : node_at fs2 ([] ++ [data_dir]) = Some Dir).
    { unfold node_at. simpl. unfold fs2.
      rewrite lookup_insert_ne by done. by eapply lookup_with_dir. }
    rewrite Hdir. simpl.
    rewrite decide_False by (by intros [?|?]).
    unfold node_at.
    change (always_there [name]) with (always_there ([] ++ [name])).
    rewrite always_there_snoc by done.
    change (path_of [name]) with name.
    apply andb_true_iff in Hname as [Hw Hnodir]. rewrite Hat, Hw.
    by destruct (fs !! name) as [[|]|]. }
  assert (Hcall : call w fs
            = (read_table (<[name := File (Text body)]> fs2) housing_csv,
               <[name := File (Text body)]> fs2, download_steps)).
  { rewrite call_miss, download_and_extract_run by done. cbv zeta.
    rewrite Hmkdir, Hserve, Hstore. cbn [opens].
    rewrite extracted_archive. fold fs2. by rewrite Hrun. }
  unfold steps, files_after. rewrite Hcall. simpl.
  split_and!; [done|by rewrite lookup_insert_eq|].
  intros Hwas (_ & _ & Hsame).
  specialize (Hsame name Hdata Hout). by rewrite lookup_insert_eq in Hsame.
Qed.

Lemma member_name_leaves_data_sample :
  files_after hostile notes !! "notes.txt" = Some (File (Text "gone"))
  ∧ ¬ grown_under data_dir notes (files_after hostile notes).
Proof.
  destruct (member_name_leaves_data hostile notes "notes.txt" "gone")
    as (_ & Hthere & Hnot); [reflexivity..|done|reflexivity|].
  split; [exact Hthere|]. apply Hnot. by vm_compute.
Defined.

(** ** The image of California *)

Import California.

(** What the download block does, case by case. *)
Lemma download_run w fs :
  run (download w) fs
  = if file_at fs image_path then (Ok tt, fs, [], [])
    else
      let tr := [EvFetch url image_path] in
      let out := ["Downloading california.png"] in
      match remote w url, fs !! IMAGES_PATH with
      | Unreachable, _ => (Raise NetworkError, fs, tr, out)
      | _, None => (Raise FileNotFoundError, fs, tr, out)
      | _, Some (File _) => (Raise FilesystemError, fs, tr, out)
      | Complete body, Some Dir =>
          if can_store w fs image_path
          then (Ok tt, <[image_path := File body]> fs, tr, out)
          else (Raise FilesystemError, fs, tr, out)
      | Truncated body, Some Dir =>
          if can_store w fs image_path
          then (Raise NetworkError, <[image_path := File body]> fs, tr, out)
          else (Raise FilesystemError, fs, tr, out)
      end.
Proof.
  unfold run, download, on_disk, is_file, print, bind, ret, lookup_path, file_at.
  simpl.
  destruct (fs !! image_path) as [[c|]|] eqn:Himage; simpl; [done|..].
  all: unfold urlretrieve_into, bind, lookup_path, log, raise.
  all: change (join_path IMAGES_PATH filename) with image_path.
  all: destruct (remote w url) as [|body|body] eqn:Hserve; simpl.
  all: rewrite ?urlretrieve_run, ?Hserve; simpl; try done.
  all: destruct (fs !! IMAGES_PATH) as [[|]|]; simpl.
  all: rewrite ?urlretrieve_run, ?Hserve; simpl; try done.
  all: by destruct (can_store w fs image_path).
Qed.

Lemma download_and_read_run w fs :
  run (download_and_read w) fs
  = match run (download w) fs with
    | (Ok _, fs', tr, out) =>
        (match fs' !! image_path with
         | Some (File c) => decode_image c
         | Some Dir => Raise FilesystemError
         | None => Raise FileNotFoundError
         end, fs', tr, out)
    | (Raise e, fs', tr, out) => (Raise e, fs', tr, out)
    end.
Proof.
  unfold run, download_and_read. unfold bind at 1.
  destruct (download w _) as [[[]|e] [[fs' tr] out]]; [|done].
  unfold on_disk, imread, bind, lookup_path, ret, raise. simpl.
  destruct (fs' !! image_path) as [[c|]|]; try done.
  by destruct (decode_image c).
Qed.

(** X6. Whenever the download block returns, a regular file is at
    [assets/california.png]: [plt.imread] cannot fail for want of the
    file, and whether it yields pixels or raises is decided by the bytes
    at that path alone. *)
Theorem image_is_there_when_block_returns (w : world) (fs fs' : filesystem)
    (tr : list event) (out : list string) :
  run (download w) fs = (Ok tt, fs', tr, out) →
  ∃ c, fs' !! image_path = Some (File c)
       ∧ run (download_and_read w) fs = (decode_image c, fs', tr, out)
       ∧ decode_image c ≠ Raise FileNotFoundError.
Proof.
  intros Hrun. rewrite download_and_read_run, Hrun.
  assert (Hfile : ∃ c, fs' !! image_path = Some (File c)).
  { rewrite download_run in Hrun. unfold file_at in Hrun.
    destruct (fs !! image_path) as [[c|]|] eqn:Himage.
    - injection Hrun as <- <- <-. by exists c.
    - destruct (remote w url) as [|body|body], (fs !! IMAGES_PATH) as [[|]|];
        try done; destruct (can_store w fs image_path); try done;
        injection Hrun as <- <- <-; rewrite lookup_insert_eq; by eexists.
    - destruct (remote w url) as [|body|body], (fs !! IMAGES_PATH) as [[|]|];
        try done; destruct (can_store w fs image_path); try done;
        injection Hrun as <- <- <-; rewrite lookup_insert_eq; by eexists. }
  destruct Hfile as [c Hc]. exists c. rewrite Hc. split_and!; [done..|].
  by destruct c.
Qed.

Lemma image_is_there_when_block_returns_sample :
  ∃ c, <[image_path := File (Image sample_pixels)]> images_dir_only
         !! image_path = Some (File c)
       ∧ run (download_and_read gallery) images_dir_only
         = (decode_image c, <[image_path := File (Image sample_pixels)]> images_dir_only,
            [EvFetch url image_path], ["Downloading california.png"])
       ∧ decode_image c ≠ Raise FileNotFoundError.
Proof.
  apply (image_is_there_when_block_returns gallery images_dir_only).
  vm_compute. reflexivity.
Defined.

(** X7. Unlike the acquisition routine, the download block does not make
    the directory it writes to.  With neither the image nor [assets]
    there, a run announces the download, makes the request and then
    fails ([NetworkError] when the host cannot be reached,
    [FileNotFoundError] otherwise), leaving the filesystem as it was, so
    the next run fails in the same way. *)
Theorem image_directory_is_not_made (w : world) (fs : filesystem) :
  file_at fs image_path = false →
  fs !! IMAGES_PATH = None →
  run (download w) fs
  = (Raise match remote w url with
           | Unreachable => NetworkError
           | _ => FileNotFoundError
           end,
     fs, [EvFetch url image_path], ["Downloading california.png"]).
Proof.
  intros Hmiss Hnodir. rewrite download_run, Hmiss, Hnodir.
  by destruct (remote w url).
Qed.

Lemma image_directory_is_not_made_sample :
  run (download online) ∅
  = (Raise FileNotFoundError, ∅, [EvFetch url image_path],
     ["Downloading california.png"]).
Proof. apply (image_directory_is_not_made online ∅); reflexivity. Defined.

(** X8. Whatever a download leaves at [assets/california.png], whole or
    cut short, is never fetched again: every later run, in whatever
    world, announces nothing, makes no request, leaves the filesystem as
    it is and hands those bytes to [plt.imread].  Bytes that are no
    image, such as an image cut short, make every later run fail there
    in the same way. *)
Theorem image_is_downloaded_once (w : world) (fs : filesystem) (body : content) :
  file_at fs image_path = false →
  fs !! IMAGES_PATH = Some Dir →
  can_store w fs image_path = true →
  remote w url = Complete body ∨ remote w url = Truncated body →
  let fs' := <[image_path := File body]> fs in
  (run (download w) fs
   = (match remote w url with Complete _ => Ok tt | _ => Raise NetworkError end,
      fs', [EvFetch url image_path], ["Downloading california.png"]))
  ∧ ∀ w', run (download w') fs' = (Ok tt, fs', [], [])
          ∧ run (download_and_read w') fs' = (decode_image body, fs', [], []).
Proof.
  intros Hmiss Hdir Hstore Hserve. split.
  - rewrite download_run, Hmiss, Hdir.
    by destruct Hserve as [-> | ->]; rewrite Hstore.
  - intros w'. rewrite download_and_read_run, download_run.
    unfold file_at. by rewrite !lookup_insert_eq.
Qed.

Lemma image_is_downloaded_once_sample :
  run (download shaky) images_dir_only
  = (Raise NetworkError, <[image_path := File (Text "PNG")]> images_dir_only,
     [EvFetch url image_path], ["Downloading california.png"])
  ∧ run (download_and_read gallery)
        (<[image_path := File (Text "PNG")]> images_dir_only)
    = (Raise DecodeError, <[image_path := File (Text "PNG")]> images_dir_only, [], []).
Proof.
  destruct (image_is_downloaded_once shaky images_dir_only (Text "PNG"))
    as [Hfirst Hlater]; [reflexivity..|by right|].
  split; [exact Hfirst|]. apply (Hlater gallery).
Defined.

(** X9. The download block changes nothing but the image: every other
    path holds what it held, no directory is made, at most one request
    goes out, and it is announced exactly when it goes out.  In
    particular the cache of the acquisition routine is left alone. *)
Theorem image_block_touches_only_image (w : world) (fs : filesystem) :
  ∃ r fs' tr out,
    run (download w) fs = (r, fs', tr, out)
    ∧ (∀ p, p ≠ image_path → fs' !! p = fs !! p)
    ∧ (∀ p, fs' !! p = Some Dir ↔ fs !! p = Some Dir)
    ∧ ((tr = [] ∧ out = [])
        ∨ (tr = [EvFetch url image_path] ∧ out = ["Downloading california.png"]))
    ∧ file_at fs' tarball_path = file_at fs tarball_path
    ∧ read_table fs' housing_csv = read_table fs housing_csv.
Proof.
  assert (Hstored : ∀ body,
            can_store w fs image_path = true →
            (∀ p, p ≠ image_path → <[image_path := File body]> fs !! p = fs !! p)
            ∧ (∀ p, <[image_path := File body]> fs !! p = Some Dir ↔ fs !! p = Some Dir)).
  { intros body Hcan. apply can_store_not_dir in Hcan. split.
    - intros p Hp. by rewrite lookup_insert_ne.
    - intros p. destruct (decide (image_path = p)) as [<-|Hne].
      + rewrite lookup_insert_eq. split; [done|]. by intros ?%Hcan.
      + by rewrite lookup_insert_ne. }
  assert (Hother : ∀ fs' : filesystem,
            (∀ p, p ≠ image_path → fs' !! p = fs !! p) →
            file_at fs' tarball_path = file_at fs tarball_path
            ∧ read_table fs' housing_csv = read_table fs housing_csv).
  { intros fs' Hsame. unfold file_at, read_table. by rewrite !Hsame. }
  rewrite download_run.
  destruct (file_at fs image_path).
  { eexists _, _, _, _. split; [done|]. split_and!; auto; by apply Hother. }
  destruct (remote w url) as [|body|body], (fs !! IMAGES_PATH) as [[|]|];
    try (eexists _, _, _, _; split; [done|]; split_and!; auto; by apply Hother);
    destruct (can_store w fs image_path) eqn:Hcan;
    try (eexists _, _, _, _; split; [done|]; split_and!; auto; by apply Hother);
    destruct (Hstored body eq_refl) as [Hsame Hdirs];
    (eexists _, _, _, _; split; [done|]; split_and!; auto; by apply Hother).
Qed.

(** ** The ratio features, exactly *)

Lemma setitem_fresh {A} (df : DataFrame A) name col :
  name ∉ columns df → setitem df name col = df ++ [(name, col)].
Proof.
  unfold columns. induction df as [|[k c] df IH]; simpl; [done|].
  intros Hfresh. apply not_elem_of_cons in Hfresh as [Hne Hfresh].
  rewrite decide_False by done. by rewrite IH.
Qed.

Lemma columns_snoc {A} (df : DataFrame A) name col :
  columns (df ++ [(name, col)]) = columns df ++ [name].
Proof. unfold columns. by rewrite fmap_app. Qed.

Lemma getitem_app_l {A} (df df' : DataFrame A) name col :
  getitem df name = Ok col → getitem (df ++ df') name = Ok col.
Proof.
  induction df as [|[k c] df IH]; simpl; [done|].
  by destruct (decide (k = name)).
Qed.

Lemma assign_ratio_fresh `{TrueDiv A} target num den (df : DataFrame A) a b :
  getitem df num = Ok a →
  getitem df den = Ok b →
  target ∉ columns df →
  assign_ratio target num den df = (Ok tt, df ++ [(target, col_div a b)]).
Proof.
  intros Ha Hb Hfresh. by rewrite assign_ratio_run, Ha, Hb, setitem_fresh.
Qed.

(** X10. On a frame that has the four base columns and none of the three
    new labels, the cell returns and leaves the frame with the three
    ratio columns added at the right, in the order of the assignments,
    each holding the row-by-row quotient of its two base columns; every
    column that was there is unchanged and in its place. *)
Theorem ratio_features_appended `{TrueDiv A} (df : DataFrame A)
    (rooms households bedrooms population : list A) :
  getitem df "total_rooms" = Ok rooms →
  getitem df "households" = Ok households →
  getitem df "total_bedrooms" = Ok bedrooms →
  getitem df "population" = Ok population →
  Forall (λ name, name ∉ columns df)
         ["rooms_per_house"; "bedrooms_ratio"; "people_per_house"] →
  add_ratio_features df
  = (Ok tt,
     df ++ [("rooms_per_house", col_div rooms households);
            ("bedrooms_ratio", col_div bedrooms rooms);
            ("people_per_house", col_div population households)]).
Proof.
  intros Hrooms Hhouseholds Hbedrooms Hpopulation Hfresh.
  apply Forall_cons in Hfresh as [Hf1 Hfresh].
  apply Forall_cons in Hfresh as [Hf2 Hfresh].
  apply Forall_cons in Hfresh as [Hf3 _].
  unfold add_ratio_features, bind.
  rewrite (assign_ratio_fresh _ _ _ df rooms households) by done.
  rewrite (assign_ratio_fresh _ _ _ _ bedrooms rooms).
  2, 3: by apply getitem_app_l.
  2:{ rewrite columns_snoc, not_elem_of_app, not_elem_of_cons.
      split_and!; [done..|]. apply not_elem_of_nil. }
  rewrite (assign_ratio_fresh _ _ _ _ population households).
  2, 3: by do 2 apply getitem_app_l.
  2:{ rewrite !columns_snoc, !not_elem_of_app, !not_elem_of_cons.
      split_and!; try done; apply not_elem_of_nil. }
  by rewrite <- !(assoc_L (++)).
Qed.

Lemma ratio_features_appended_sample :
  add_ratio_features
    ([("total_rooms", [880; 7099]); ("total_bedrooms", [129; 1106]);
      ("population", [322; 0]); ("households", [126; 0])]%float)
  = (Ok tt,
     [("total_rooms", [880; 7099]); ("total_bedrooms", [129; 1106]);
      ("population", [322; 0]); ("households", [126; 0])]%float
     ++ [("rooms_per_house", col_div [880; 7099] [126; 0]);
         ("bedrooms_ratio", col_div [129; 1106] [880; 7099]);
         ("people_per_house", col_div [322; 0] [126; 0])]%float).
Proof.
  apply (ratio_features_appended
           ([("total_rooms", [880; 7099]); ("total_bedrooms", [129; 1106]);
             ("population", [322; 0]); ("households", [126; 0])]%float));
    [reflexivity..|compute_done].
Defined.

Lemma getitem_raises {A} (df : DataFrame A) name e :
  getitem df name = Raise e → e = KeyError ∧ name ∉ columns df.
Proof.
  unfold columns. induction df as [|[k c] df IH]; simpl.
  - intros [= <-]. split; [done|]. apply not_elem_of_nil.
  - destruct (decide (k = name)) as [->|Hne]; [done|].
    intros [-> Hout]%IH. split; [done|]. by apply not_elem_of_cons.
Qed.

(** X11. A base column that is missing is a [KeyError], and the
    assignments made before it stay: without [total_rooms] or
    [households] the frame is untouched; without [total_bedrooms] the
    frame has gained [rooms_per_house] only; without [population] it has
    gained [rooms_per_house] and [bedrooms_ratio], and
    [people_per_house] is never set. *)
Theorem ratio_features_missing_column `{TrueDiv A} (df : DataFrame A) :
  (getitem df "total_rooms" = Raise KeyError ∨ getitem df "households" = Raise KeyError →
   add_ratio_features df = (Raise KeyError, df))
  ∧ (∀ rooms households,
       getitem df "total_rooms" = Ok rooms →
       getitem df "households" = Ok households →
       getitem df "total_bedrooms" = Raise KeyError →
       add_ratio_features df
       = (Raise KeyError, setitem df "rooms_per_house" (col_div rooms households)))
  ∧ (∀ rooms households bedrooms,
       getitem df "total_rooms" = Ok rooms →
       getitem df "households" = Ok households →
       getitem df "total_bedrooms" = Ok bedrooms →
       getitem df "population" = Raise KeyError →
       add_ratio_features df
       = (Raise KeyError,
          setitem (setitem df "rooms_per_house" (col_div rooms households))
                  "bedrooms_ratio" (col_div bedrooms rooms))
       ∧ getitem (add_ratio_features df).2 "people_per_house"
         = getitem df "people_per_house").
Proof.
  unfold add_ratio_features, bind. split_and!.
  - intros [Hmiss|Hmiss]; rewrite assign_ratio_run, Hmiss; [done|].
    destruct (getitem df "total_rooms") as [rooms|e] eqn:Hrooms; [done|].
    by apply getitem_raises in Hrooms as [-> _].
  - intros rooms households Hrooms Hhouseholds Hmiss.
    by repeat ratio_step.
  - intros rooms households bedrooms Hrooms Hhouseholds Hbedrooms Hmiss.
    repeat ratio_step. split; [done|]. by rewrite ?getitem_setitem_ne.
Qed.


(** ** One-hot encoding of several columns *)

Lemma column_of_elem {A} (df : mixed_frame A) col s :
  NoDup df.*1 → (col, s) ∈ df → column_of df col = Ok s.
Proof.
  induction df as [|[k s'] df IH]; simpl.
  - by intros _ ?%elem_of_nil.
  - intros [Hfresh Hnd]%NoDup_cons Hin.
    apply elem_of_cons in Hin as [[= -> ->]|Hin].
    + by rewrite decide_True.
    + rewrite decide_False; [by apply IH|].
      intros ->. apply Hfresh. apply list_elem_of_fmap. by exists (col, s).
Qed.

Lemma frame_of_rows_one_hot (f : string → string) categories (xs : list string) :
  frame_of_rows (f <$> categories) (one_hot categories <$> xs)
  = (λ c, (f c, (λ x, if decide (c = x) then 1%Z else 0%Z) <$> xs)) <$> categories.
Proof.
  unfold frame_of_rows. rewrite imap_fmap.
  rewrite <- (imap_const (λ c, (f c, (λ x, if decide (c = x) then 1%Z else 0%Z) <$> xs))).
  apply imap_ext. intros j c Hj. simpl. f_equal.
  rewrite <- list_fmap_compose. apply list_fmap_ext. intros _ x _. simpl.
  unfold one_hot. by rewrite list_lookup_fmap, Hj.
Qed.

Lemma one_hot_df_columns {A} col xs :
  ∃ one_hot, one_hot_df col xs = Ok one_hot
             ∧ encoded one_hot = columns_of (A := A) col (Object xs).
Proof.
  unfold one_hot_df, fit_transform. rewrite transform_known.
  2:{ apply Forall_forall. intros x Hx. by apply fit_spec. }
  eexists. split; [done|].
  unfold get_feature_names_out. rewrite <- fmap_drop.
  rewrite <- list_fmap_compose.
  assert (Hrows : (drop 1 ∘ one_hot (fit xs)) <$> xs = one_hot (drop 1 (fit xs)) <$> xs).
  { apply list_fmap_ext. intros _ x _. unfold one_hot. simpl. by rewrite fmap_drop. }
  rewrite Hrows, frame_of_rows_one_hot.
  unfold encoded, columns_of. rewrite <- list_fmap_compose.
  apply list_fmap_ext. intros _ c _. simpl. f_equal.
  by rewrite <- list_fmap_compose.
Qed.

Lemma labels_of_columns_of {A} col (s : series A) :
  columns (columns_of col s) = labels_of col s.
Proof.
  destruct s as [xs|xs]; simpl; [done|].
  unfold columns, get_feature_names_out. rewrite <- fmap_drop, <- list_fmap_compose.
  by apply list_fmap_ext.
Qed.

Lemma transform_column_run {A} (df : mixed_frame A) col s acc :
  column_of df col = Ok s →
  (∀ xs, s = Numeric xs → col ∉ columns acc) →
  transform_column df col acc = (Ok tt, acc ++ columns_of col s).
Proof.
  intros Hcol Hfresh. unfold transform_column. rewrite Hcol.
  destruct s as [xs|xs].
  - unfold set_col. rewrite setitem_fresh; [done|]. by eapply Hfresh.
  - destruct (one_hot_df_columns (A := A) col xs) as (one_hot & -> & <-). done.
Qed.

Lemma transform_columns_run {A} (df rest : mixed_frame A) acc :
  (∀ col s, (col, s) ∈ rest → column_of df col = Ok s) →
  NoDup (columns acc ++ transformed_labels rest) →
  transform_columns df rest.*1 acc = (Ok tt, acc ++ transformed rest).
Proof.
  revert acc. induction rest as [|[col s] rest IH]; intros acc Hcols Hnd; simpl.
  - by rewrite app_nil_r.
  - unfold bind. rewrite (transform_column_run df col s).
    + rewrite IH.
      * by rewrite (assoc_L (++)).
      * intros col' s' Hin. apply Hcols. by right.
      * unfold columns in *. rewrite fmap_app. fold (columns (columns_of col s)).
        rewrite labels_of_columns_of. simpl in Hnd. by rewrite <- (assoc_L (++)).
    + apply Hcols. by left.
    + intros xs ->. simpl in Hnd. apply NoDup_app in Hnd as (_ & Hdisj & _).
      intros Hin. apply (Hdisj col Hin). by left.
Qed.

Lemma one_hot_columns_run {A} (df : mixed_frame A) :
  NoDup df.*1 →
  NoDup (transformed_labels df) →
  one_hot_columns df = (Ok tt, transformed df).
Proof.
  intros Hlabels Hout. unfold one_hot_columns.
  by rewrite (transform_columns_run df df []); [|by intros; apply column_of_elem|].
Qed.

(** X12. On a frame with distinct column labels, and when the labels the
    loop hands out are distinct too, the cell returns and
    [df_transformed] is, column by column in the order of [df]: a numeric
    column as it was, under its own label; an object column replaced by
    one 0/1 column per category but the alphabetically first, labelled
    [col_category], holding 1 exactly in the rows of that category. *)
Theorem one_hot_columns_result {A} (df : mixed_frame A) :
  NoDup df.*1 →
  NoDup (transformed_labels df) →
  one_hot_columns df = (Ok tt, transformed df)
  ∧ columns (one_hot_columns df).2 = (transformed_labels df).
Proof.
  intros Hlabels Hout. rewrite one_hot_columns_run by done.
  split; [done|]. simpl.
  clear. induction df as [|[col s] df IH]; simpl; [done|].
  unfold columns, transformed, transformed_labels in *. simpl.
  by rewrite fmap_app, IH, <- labels_of_columns_of.
Qed.

Lemma one_hot_columns_result_sample :
  one_hot_columns
    [("Sweetness", Numeric [2; 1]%Z); ("Color", Object ["Red"; "Blue"])]
  = (Ok tt, [("Sweetness", [inl 2; inl 1]%Z); ("Color_Red", [inr 1; inr 0]%Z)]).
Proof.
  apply (one_hot_columns_result
           [("Sweetness", Numeric [2; 1]%Z); ("Color", Object ["Red"; "Blue"])]).
  - compute_done.
  - compute_done.
Defined.

Lemma one_hot_cons c categories x :
  one_hot (c :: categories) x
  = (if decide (c = x) then 1%Z else 0%Z) :: one_hot categories x.
Proof. done. Qed.

Lemma ones_cons z row : ones (z :: row) = (if decide (z = 1%Z) then 1 else 0) + ones row.
Proof.
  unfold ones. destruct (decide (z = 1%Z)) as [->|Hne].
  - by rewrite filter_cons_True.
  - by rewrite filter_cons_False.
Qed.

(** X13. Dropping the first category loses nothing: over the categories
    fitted on a column, a row without its first entry holds no 1 exactly
    for the first category and exactly one 1 for every other, and two
    values with the same shortened row are the same value. *)
Theorem dropped_first_keeps_value (xs : list string) (x y : string) :
  x ∈ xs → y ∈ xs →
  ones (drop 1 (one_hot (fit xs) x)) = (if decide (head (fit xs) = Some x) then 0 else 1)
  ∧ (drop 1 (one_hot (fit xs) x) = drop 1 (one_hot (fit xs) y) → x = y).
Proof.
  destruct (fit_spec xs) as (Hnd & Hin & _). intros Hx%Hin Hy%Hin.
  destruct (fit xs) as [|c categories]; [by apply elem_of_nil in Hx|].
  apply NoDup_cons in Hnd as [Hfresh Hnd].
  rewrite !one_hot_cons. cbn [drop head]. rewrite !drop_0.
  assert (Hrest : ∀ z, z ∈ (c :: categories) →
            (z = c ∧ (z ∉ categories) ∧ ones (one_hot categories z) = 0)
            ∨ (z ≠ c ∧ z ∈ categories ∧ ones (one_hot categories z) = 1)).
  { intros z Hz. apply elem_of_cons in Hz as [->|Hz].
    - left. split_and!; [done..|]. by apply ones_one_hot_absent.
    - right. split_and!; [by intros ->|done|]. by apply ones_one_hot. }
  split.
  - destruct (Hrest x Hx) as [(-> & _ & ->)|(Hne & _ & ->)].
    + by rewrite decide_True.
    + rewrite decide_False; [done|]. by intros [= ->].
  - intros Hrows.
    destruct (Hrest x Hx) as [(-> & _ & Hox)|(_ & Hxin & Hox)],
             (Hrest y Hy) as [(-> & _ & Hoy)|(_ & Hyin & Hoy)];
      try done; try (rewrite Hrows in Hox; congruence).
    apply (decode_one_hot categories) in Hxin, Hyin.
    rewrite Hrows in Hxin. congruence.
Qed.

Lemma dropped_first_keeps_value_sample :
  ones (drop 1 (one_hot (fit ["red"; "blue"; "green"]) "blue")) = 0
  ∧ ones (drop 1 (one_hot (fit ["red"; "blue"; "green"]) "red")) = 1.
Proof.
  destruct (dropped_first_keeps_value ["red"; "blue"; "green"] "blue" "red")
    as [Hblue _]; [compute_done..|].
  destruct (dropped_first_keeps_value ["red"; "blue"; "green"] "red" "blue")
    as [Hred _]; [compute_done..|].
  split; [exact Hblue|exact Hred].
Defined.

Lemma fit_replicate n (v : string) : drop 1 (fit (replicate n v)) = [].
Proof.
  assert (Hdups : remove_dups (replicate n v) = [] ∨ remove_dups (replicate n v) = [v]).
  { induction n as [|n IH]; simpl; [by left|]. right.
    destruct (decide_rel elem_of v (replicate n v)) as [Hin|Hout].
    - destruct IH as [Hnil|Hone]; [|done].
      apply elem_of_remove_dups in Hin. rewrite Hnil in Hin.
      by apply elem_of_nil in Hin.
    - destruct n; [done|]. exfalso. apply Hout. by left. }
  unfold fit. destruct Hdups as [-> | ->]; done.
Qed.

(** X14. An object column that holds one and the same value in every
    row leaves no trace: the loop adds no column for it.  A frame with at
    least one row that is made of such columns only is turned into a
    frame without any column. *)
Theorem constant_columns_vanish {A} (df : mixed_frame A) (n : nat) :
  0 < n →
  NoDup df.*1 →
  Forall (λ cs, ∃ v, cs.2 = Object (replicate n v)) df →
  one_hot_columns df = (Ok tt, []).
Proof.
  intros _ Hlabels Hconst.
  assert (Hnone : transformed df = [] ∧ transformed_labels df = []).
  { clear Hlabels. induction Hconst as [|[col s] df (v & Hs) _ [IHc IHl]]; [done|].
    simpl in Hs. subst s. unfold transformed, transformed_labels in *. simpl.
    unfold get_feature_names_out. rewrite <- fmap_drop, fit_replicate.
    by rewrite IHc, IHl. }
  destruct Hnone as [Hcols Hlabs].
  rewrite one_hot_columns_run, Hcols; [done..|]. rewrite Hlabs. constructor.
Qed.

Lemma constant_columns_vanish_sample :
  one_hot_columns (A := Z)
    [("Color", Object ["Red"; "Red"; "Red"]); ("Size", Object ["S"; "S"; "S"])]
  = (Ok tt, []).
Proof.
  apply (constant_columns_vanish
           [("Color", Object ["Red"; "Red"; "Red"]); ("Size", Object ["S"; "S"; "S"])] 3).
  - lia.
  - compute_done.
  - repeat constructor.
    + by exists "Red".
    + by exists "S".
Defined.

Lemma feature_name_not_column col c : col +:+ "_" +:+ c ≠ col.
Proof.
  induction col as [|a col IH]; simpl; [done|]. by intros [= H].
Qed.

Lemma length_setitem_present {X} (df : DataFrame X) name col :
  name ∈ columns df → length (setitem df name col) = length df.
Proof.
  unfold columns. induction df as [|[k c] df IH]; simpl.
  - by intros ?%elem_of_nil.
  - intros Hin. destruct (decide (k = name)) as [->|Hne]; simpl; [done|].
    f_equal. apply IH. by apply elem_of_cons in Hin as [->|Hin].
Qed.

(** X15. A numeric column whose label is the feature name of a category
    encoded before it takes that column's place: after the loop the label
    holds the numeric cells, the 0/1 column of the category is gone, and
    the frame has one column less than the loop made. *)
Theorem numeric_column_replaces_encoded {A} (col c : string) (xs : list string)
    (ys : list A) :
  c ∈ drop 1 (fit xs) →
  let label := col +:+ "_" +:+ c in
  let result := (one_hot_columns [(col, Object xs); (label, Numeric ys)]).2 in
  one_hot_columns [(col, Object xs); (label, Numeric ys)]
  = (Ok tt, setitem (columns_of col (Object xs)) label (copied ys))
  ∧ getitem result label = Ok (copied ys)
  ∧ length result = length (drop 1 (fit xs)).
Proof.
  intros Hc label result.
  assert (Hrun : one_hot_columns [(col, Object xs); (label, Numeric ys)]
                 = (Ok tt, setitem (columns_of col (Object xs)) label (copied ys))).
  { unfold one_hot_columns. simpl. unfold bind, transform_column. simpl.
    rewrite decide_True by done.
    destruct (one_hot_df_columns (A := A) col xs) as (one_hot & -> & Henc).
    unfold concat_columns. simpl in *. rewrite Henc.
    rewrite decide_False by (symmetry; apply feature_name_not_column).
    by rewrite decide_True. }
  subst result. rewrite Hrun. simpl. split_and!; [done|apply getitem_setitem_eq|].
  rewrite length_setitem_present; [by rewrite length_fmap|].
  unfold columns. rewrite <- list_fmap_compose. apply list_elem_of_fmap. by exists c.
Qed.

Lemma numeric_column_replaces_encoded_sample :
  one_hot_columns [("Color", Object ["Red"; "Blue"]); ("Color_Red", Numeric [7; 8]%Z)]
  = (Ok tt, [("Color_Red", [inl 7; inl 8]%Z)]).
Proof.
  apply (numeric_column_replaces_encoded "Color" "Red" ["Red"; "Blue"] [7; 8]%Z).
  compute_done.
Defined.

(** ** Label encoding *)

(** X16. Whatever colours are drawn for the two groups, the dictionary
    has a code for every one of them (no cell is left missing), every
    sweet and juicy fruit gets a code below 3 and every other fruit a
    code from 3 on: the hand-made codes keep the two groups apart. *)
Theorem manual_codes_separate (colors_sweet_juicy colors_not_sweet_not_juicy : list string) :
  Forall (λ x, x ∈ sweet_juicy_colors) colors_sweet_juicy →
  Forall (λ x, x ∈ not_sweet_not_juicy_colors) colors_not_sweet_not_juicy →
  ∃ low high,
    map_dict color_mapping (colors_sweet_juicy ++ colors_not_sweet_not_juicy)
    = (Some <$> low) ++ (Some <$> high)
    ∧ length low = length colors_sweet_juicy
    ∧ length high = length colors_not_sweet_not_juicy
    ∧ Forall (λ z, (0 ≤ z < 3)%Z) low
    ∧ Forall (λ z, (3 ≤ z < 6)%Z) high.
Proof.
  intros Hsweet Hnot.
  assert (Hlow : ∃ low, map_dict color_mapping colors_sweet_juicy = Some <$> low
                        ∧ length low = length colors_sweet_juicy
                        ∧ Forall (λ z, (0 ≤ z < 3)%Z) low).
  { induction Hsweet as [|x xs Hx _ (low & Hmap & Hlen & Hall)]; [by exists []|].
    unfold sweet_juicy_colors in Hx. rewrite !elem_of_cons in Hx.
    destruct Hx as [->|[->|[->|Hx]]]; [..|by apply elem_of_nil in Hx].
    - exists (0%Z :: low). simpl. rewrite Hmap, Hlen. split_and!; [done..|].
      constructor; [lia|done].
    - exists (1%Z :: low). simpl. rewrite Hmap, Hlen. split_and!; [done..|].
      constructor; [lia|done].
    - exists (2%Z :: low). simpl. rewrite Hmap, Hlen. split_and!; [done..|].
      constructor; [lia|done]. }
  assert (Hhigh : ∃ high, map_dict color_mapping colors_not_sweet_not_juicy = Some <$> high
                          ∧ length high = length colors_not_sweet_not_juicy
                          ∧ Forall (λ z, (3 ≤ z < 6)%Z) high).
  { induction Hnot as [|x xs Hx _ (high & Hmap & Hlen & Hall)]; [by exists []|].
    unfold not_sweet_not_juicy_colors in Hx. rewrite !elem_of_cons in Hx.
    destruct Hx as [->|[->|[->|Hx]]]; [..|by apply elem_of_nil in Hx].
    - exists (3%Z :: high). simpl. rewrite Hmap, Hlen. split_and!; [done..|].
      constructor; [lia|done].
    - exists (4%Z :: high). simpl. rewrite Hmap, Hlen. split_and!; [done..|].
      constructor; [lia|done].
    - exists (5%Z :: high). simpl. rewrite Hmap, Hlen. split_and!; [done..|].
      constructor; [lia|done]. }
  destruct Hlow as (low & Hl & ? & ?), Hhigh as (high & Hh & ? & ?).
  exists low, high. unfold map_dict in *. by rewrite fmap_app, Hl, Hh.
Qed.

Lemma manual_codes_separate_sample :
  ∃ low high,
    map_dict color_mapping (["Purple"; "Blue"] ++ ["Red"; "Green"])
    = (Some <$> low) ++ (Some <$> high)
    ∧ length low = 2
    ∧ length high = 2
    ∧ Forall (λ z, (0 ≤ z < 3)%Z) low
    ∧ Forall (λ z, (3 ≤ z < 6)%Z) high.
Proof.
  apply (manual_codes_separate ["Purple"; "Blue"] ["Red"; "Green"]); compute_done.
Defined.

Lemma index_of_elem x categories i : index_of x categories = Some i → x ∈ categories.
Proof.
  revert i. induction categories as [|c cs IH]; intros i; simpl; [done|].
  destruct (decide (c = x)) as [->|Hne]; [by left|].
  destruct (index_of x cs) as [i'|] eqn:Hi; [|done]. intros _. right. by eapply IH.
Qed.

Lemma index_of_found x categories : x ∈ categories → is_Some (index_of x categories).
Proof.
  induction categories as [|c cs IH]; simpl; [by intros ?%elem_of_nil|].
  intros Hx. destruct (decide (c = x)) as [->|Hne]; [done|].
  apply elem_of_cons in Hx as [->|Hx]; [done|].
  destruct (IH Hx) as [i ->]. done.
Qed.

(** In a list in strict alphabetical order, positions follow the order. *)
Lemma index_of_before categories x y i j :
  StronglySorted String.le categories →
  index_of x categories = Some i →
  index_of y categories = Some j →
  before x y → i < j.
Proof.
  revert i j. induction categories as [|c cs IH]; intros i j Hsorted; simpl; [done|].
  apply StronglySorted_inv in Hsorted as [Hsorted Hc].
  intros Hi Hj [Hle Hne].
  destruct (decide (c = x)) as [<-|Hcx], (decide (c = y)) as [<-|Hcy].
  - done.
  - destruct (index_of y cs); simplify_eq/=. lia.
  - exfalso. destruct (index_of x cs) as [i'|] eqn:Hi'; [|done].
    apply index_of_elem in Hi'. rewrite Forall_forall in Hc.
    apply Hne. by apply (anti_symm String.le); [|apply Hc].
  - destruct (index_of x cs) as [i'|] eqn:Hi'; [|done].
    destruct (index_of y cs) as [j'|] eqn:Hj'; [|done].
    simplify_eq/=. apply -> Nat.succ_lt_mono. by apply IH.
Qed.

Lemma fit_strongly_sorted xs : StronglySorted String.le (fit xs).
Proof. apply (StronglySorted_merge_sort String.le). Qed.

Lemma auto_code_before xs x y :
  x ∈ xs → y ∈ xs → before x y →
  ∃ i j, auto_code xs x = Some i ∧ auto_code xs y = Some j ∧ i < j.
Proof.
  intros Hx Hy Hxy. unfold auto_code.
  destruct (index_of_found x (fit xs)) as [i Hi]; [by apply fit_spec|].
  destruct (index_of_found y (fit xs)) as [j Hj]; [by apply fit_spec|].
  exists i, j. split_and!; [done..|].
  eapply index_of_before; eauto using fit_strongly_sorted.
Qed.

(** X17. The automatic codes follow the alphabet, not the groups: every
    cell of the column gets the position of its value among the sorted
    distinct values, and as soon as Blue, Green and Orange have all been
    drawn, Green (not sweet) is coded strictly between Blue and Orange
    (both sweet and juicy), so that no threshold on the code has the two
    groups on its two sides, whichever side is which. *)
Theorem automatic_codes_interleave (colors_sweet_juicy colors_not_sweet_not_juicy : list string) :
  "Blue" ∈ colors_sweet_juicy →
  "Orange" ∈ colors_sweet_juicy →
  "Green" ∈ colors_not_sweet_not_juicy →
  let colors := colors_sweet_juicy ++ colors_not_sweet_not_juicy in
  (∃ codes, ordinal_fit_transform colors = Ok codes
            ∧ Forall2 (λ x code, auto_code colors x = Some code) colors codes)
  ∧ (∃ blue green orange,
       auto_code colors "Blue" = Some blue
       ∧ auto_code colors "Green" = Some green
       ∧ auto_code colors "Orange" = Some orange
       ∧ blue < green < orange)
  ∧ ∀ t,
      ¬ ((∀ x code, x ∈ colors_sweet_juicy → auto_code colors x = Some code → code < t)
         ∧ (∀ y code, y ∈ colors_not_sweet_not_juicy → auto_code colors y = Some code → t ≤ code))
      ∧ ¬ ((∀ x code, x ∈ colors_sweet_juicy → auto_code colors x = Some code → t ≤ code)
           ∧ (∀ y code, y ∈ colors_not_sweet_not_juicy → auto_code colors y = Some code → code < t)).
Proof.
  intros Hblue Horange Hgreen colors.
  assert (Hb : "Blue" ∈ colors) by (apply elem_of_app; by left).
  assert (Ho : "Orange" ∈ colors) by (apply elem_of_app; by left).
  assert (Hg : "Green" ∈ colors) by (apply elem_of_app; by right).
  destruct (auto_code_before colors "Blue" "Green" Hb Hg) as (blue & green & Hcb & Hcg & Hbg);
    [split; [compute_done|done]|].
  destruct (auto_code_before colors "Green" "Orange" Hg Ho) as (green' & orange & Hcg' & Hco & Hgo);
    [split; [compute_done|done]|].
  assert (green' = green) as -> by congruence.
  split_and!.
  - unfold ordinal_fit_transform.
    assert (Hall : Forall (λ x, is_Some (index_of x (fit colors))) colors).
    { apply Forall_forall. intros x Hx. by apply index_of_found, fit_spec. }
    clear -Hall. unfold auto_code. generalize dependent (fit colors). intros categories Hall.
    induction Hall as [|x xs [i Hi] _ (codes & Hm & Hcodes)].
    + eexists. by split.
    + simpl in *. rewrite Hi. simpl.
      destruct (mapM (λ x, index_of x categories) xs) as [codes'|] eqn:Hmap; [|done].
      simplify_eq/=. eexists. split; [done|]. by constructor.
  - exists blue, green, orange. split_and!; [done..|lia|lia].
  - intros t. split.
    + intros [Hlow Hhigh].
      specialize (Hlow _ _ Horange Hco). specialize (Hhigh _ _ Hgreen Hcg). lia.
    + intros [Hhigh Hlow].
      specialize (Hhigh _ _ Hblue Hcb). specialize (Hlow _ _ Hgreen Hcg). lia.
Qed.

Lemma automatic_codes_interleave_sample :
  ∃ blue green orange,
    auto_code (["Orange"; "Blue"] ++ ["Red"; "Green"]) "Blue" = Some blue
    ∧ auto_code (["Orange"; "Blue"] ++ ["Red"; "Green"]) "Green" = Some green
    ∧ auto_code (["Orange"; "Blue"] ++ ["Red"; "Green"]) "Orange" = Some orange
    ∧ blue < green < orange.
Proof.
  apply (automatic_codes_interleave ["Orange"; "Blue"] ["Red"; "Green"]); compute_done.
Defined.

(** ** Cells and the names they need *)

(** X18. Run from top to bottom, the exploration notebook never meets an
    unbound name, whatever the kernel held before, whether or not the
    archive and the image are cached: every name is bound by a statement
    above its first use, so the run ends at a library call that raises
    or not at all. *)
Theorem eda_run_all_binds_its_names (lib : nat → bool) (ns : gset string)
    (miss cached : bool) :
  (run_cell lib (eda_run_all miss cached) (Kernel ns [])).1
  = (if returns lib (eda_run_all miss cached) then Ok tt else Raise LibraryError)
  ∧ (returns lib (eda_run_all miss cached) = true →
     executed (run_cell lib (eda_run_all miss cached) (Kernel ns [])).2
     = line <$> eda_run_all miss cached).
Proof.
  destruct (run_well_scoped lib [] (eda_run_all miss cached) (Kernel ns []))
    as (ns' & ran & -> & _ & Hall); [by destruct miss, cached; vm_compute|done|].
  split; [done|]. intros Hret. by destruct (Hall Hret) as [_ ->].
Qed.

(** X19. The cell of the image depends on the first cell: it imports
    [pathlib] but uses [Path], so in a kernel where [Path] is not bound
    it stops at line 245 with a [NameError], having bound only
    [pathlib] and [filename]. *)
Theorem california_cell_needs_Path (lib : nat → bool) (ns : gset string) (cached : bool) :
  "Path" ∉ ns →
  lib 241 = true →
  run_cell lib (california_cell cached) (Kernel ns [])
  = (Raise (NameError "Path"), Kernel (ns ∪ {["pathlib"]} ∪ {["filename"]}) [241; 244]).
Proof.
  intros Hfree Himport. unfold california_cell, california_cell_head.
  cbn [app]. rewrite run_cell_cons, exec_stmt_run by constructor.
  cbn [calls line binds namespace executed andb negb app]. rewrite Himport.
  cbn [negb]. rewrite run_cell_cons, exec_stmt_run by constructor.
  cbn [calls line binds namespace executed andb negb app].
  rewrite run_cell_cons. unfold exec_stmt, bind. cbn [reads].
  rewrite resolve_unbound; [done|]. cbn [namespace].
  rewrite !not_elem_of_union, !elem_of_list_to_set, !elem_of_cons, !elem_of_nil.
  repeat split; [done|intros [?|[]]; done..].
Qed.

Lemma california_cell_needs_Path_sample :
  run_cell (λ _, true) (california_cell false) (Kernel ∅ [])
  = (Raise (NameError "Path"), Kernel (∅ ∪ {["pathlib"]} ∪ {["filename"]}) [241; 244]).
Proof. apply california_cell_needs_Path; [apply not_elem_of_empty|reflexivity]. Defined.

(** Running statements only adds names to the namespace. *)
Lemma exec_stmt_grows lib s k : namespace k ⊆ namespace (exec_stmt lib s k).2.
Proof.
  unfold exec_stmt, bind.
  assert (Hres : ∀ names, (resolve names k).2 = k).
  { induction names as [|n names IH]; simpl; [done|].
    unfold bind, get. by destruct (decide _). }
  specialize (Hres (reads s)). destruct (resolve (reads s) k) as [[[]|e] k0];
    simpl in Hres; subst k0; [|done].
  destruct (calls s && negb (lib (line s))); simpl; [done|].
  apply union_subseteq_l.
Qed.

Lemma run_cell_grows lib cell k : namespace k ⊆ namespace (run_cell lib cell k).2.
Proof.
  revert k. induction cell as [|s cell IH]; intros k; [done|].
  rewrite run_cell_cons. pose proof (exec_stmt_grows lib s k) as Hs.
  destruct (exec_stmt lib s k) as [[[]|e] k']; simpl in Hs; [|done].
  etrans; [exact Hs|apply IH].
Qed.

(** X20. The one-hot cell stops at line 214, but what it bound before
    that line is all the cell of the sparse output needs: run after it,
    from whatever kernel the one-hot cell was started in, the sparse cell
    meets no unbound name. *)
Theorem sparse_cell_after_one_hot_cell (lib : nat → bool) (k : kernel) :
  returns lib one_hot_cell_head = true →
  (run_cell lib sparse_cell (run_cell lib one_hot_cell k).2).1
  = (if returns lib sparse_cell then Ok tt else Raise LibraryError).
Proof.
  intros Hret.
  assert (Hbound : Forall (λ n, n ∈ namespace (run_cell lib one_hot_cell k).2)
                          ["OneHotEncoder"; "pd"]).
  { unfold one_hot_cell. rewrite run_cell_app.
    destruct (run_well_scoped lib [] one_hot_cell_head k)
      as (ns' & ran & Hrun & _ & Hall); [by vm_compute|done|].
    rewrite Hrun, Hret. destruct (Hall Hret) as [-> _].
    eapply Forall_impl with (P := λ n, n ∈ bound one_hot_cell_head).
    - repeat constructor; by vm_compute.
    - intros n Hn. eapply run_cell_grows. simpl. apply elem_of_union_r, Hn. }
  destruct (run_well_scoped lib ["OneHotEncoder"; "pd"] sparse_cell
              (run_cell lib one_hot_cell k).2)
    as (ns' & ran & -> & _); [by vm_compute|done|done].
Qed.

Lemma sparse_cell_after_one_hot_cell_sample :
  (run_cell (λ _, true) sparse_cell
            (run_cell (λ _, true) one_hot_cell (Kernel ∅ [])).2).1
  = (if returns (λ _, true) sparse_cell then Ok tt else Raise LibraryError).
Proof. apply sparse_cell_after_one_hot_cell. reflexivity. Defined.

(** X21. The sparse cell imports nothing itself: in a kernel where
    [OneHotEncoder] is not bound it rebinds [X] on line 257 and stops at
    line 259 with a [NameError]. *)
Theorem sparse_cell_needs_OneHotEncoder (lib : nat → bool)
    (ns : gset string) (ran : list nat) :
  "OneHotEncoder" ∉ ns →
  run_cell lib sparse_cell (Kernel ns ran)
  = (Raise (NameError "OneHotEncoder"), Kernel (ns ∪ {["X"]}) (ran ++ [257])).
Proof.
  intros Hfree. unfold sparse_cell.
  rewrite run_cell_cons, exec_stmt_run by constructor.
  cbn [calls line binds andb negb].
  rewrite run_cell_cons. unfold exec_stmt, bind. cbn [reads].
  rewrite resolve_unbound; [done|]. cbn [namespace].
  rewrite not_elem_of_union, elem_of_list_to_set, elem_of_cons, elem_of_nil.
  split; [done|]. by intros [?|[]].
Qed.

Lemma sparse_cell_needs_OneHotEncoder_sample :
  run_cell (λ _, true) sparse_cell (Kernel {["np"; "pd"; "OrdinalEncoder"]} [26; 27; 30])
  = (Raise (NameError "OneHotEncoder"),
     Kernel ({["np"; "pd"; "OrdinalEncoder"]} ∪ {["X"]}) ([26; 27; 30] ++ [257])).
Proof.
  apply (sparse_cell_needs_OneHotEncoder (λ _, true)
           {["np"; "pd"; "OrdinalEncoder"]} [26; 27; 30]).
  by vm_compute.
Defined.

(** X22. The last cell imports what it uses but takes [df] from an
    earlier cell: in a kernel where [df] is not bound, and with its
    imports and the empty frame going through, it stops at the head of
    its loop on line 290 with a [NameError]. *)
Theorem multi_column_cell_needs_df (lib : nat → bool)
    (ns : gset string) (ran : list nat) :
  "df" ∉ ns →
  lib 282 = true → lib 283 = true → lib 287 = true →
  run_cell lib multi_column_cell (Kernel ns ran)
  = (Raise (NameError "df"),
     Kernel (ns ∪ {["pd"]} ∪ {["OneHotEncoder"]} ∪ {["df_transformed"]})
            (ran ++ [282; 283; 287])).
Proof.
  intros Hfree H282 H283 H287. unfold multi_column_cell.
  rewrite run_cell_cons, exec_stmt_run by constructor.
  cbn [calls line binds namespace executed andb]. rewrite H282. cbn [negb].
  rewrite run_cell_cons, exec_stmt_run by constructor.
  cbn [calls line binds namespace executed andb]. rewrite H283. cbn [negb].
  rewrite run_cell_cons, exec_stmt_run.
  2:{ repeat constructor. cbn [namespace].
      apply elem_of_union_l, elem_of_union_r. apply elem_of_list_to_set, elem_of_cons. by left. }
  cbn [calls line binds namespace executed andb]. rewrite H287. cbn [negb].
  rewrite run_cell_cons. unfold exec_stmt, bind. cbn [reads].
  rewrite resolve_unbound.
  - rewrite <- !(assoc_L (++)). done.
  - cbn [namespace].
    rewrite !not_elem_of_union, !elem_of_list_to_set, !elem_of_cons, !elem_of_nil.
    repeat split; [done|intros [?|[]]; done..].
Qed.

Lemma multi_column_cell_needs_df_sample :
  run_cell (λ _, true) multi_column_cell (Kernel ∅ [])
  = (Raise (NameError "df"),
     Kernel (∅ ∪ {["pd"]} ∪ {["OneHotEncoder"]} ∪ {["df_transformed"]})
            ([] ++ [282; 283; 287])).
Proof.
  apply (multi_column_cell_needs_df (λ _, true) ∅ []);
    [apply not_elem_of_empty|reflexivity..].
Defined.
